(** * mysql-tables-to-gcs: a model of [main.go] and its properties

    The development follows [main.go] function by function.  Strings are
    Go strings (byte sequences), [error] values keep the wrapping chain
    that [fmt.Errorf] with [%w] builds, external commands and the object
    store are oracles of an environment, and the two nested
    [errgroup.Group]s of [main] are a labelled transition system over the
    set of running goroutines. *)

From Stdlib Require Import ZArith Ascii String DecimalString Lia.
From stdpp Require Import gmap strings list fin_maps.

#[local] Open Scope Z_scope.

(** ** Go values *)

(** The double-quote character that the Go format strings escape. *)
Definition dquote : string := String (ascii_of_nat 34) EmptyString.

(** [error]: a leaf error carries its text, [fmt.Errorf] with one [%w]
    verb builds a [wrapError] holding the formatted text and the cause. *)
Inductive error : Type :=
| errorString (msg : string)
| wrapError (msg : string) (cause : error).

Definition Error (e : error) : string :=
  match e with
  | errorString m => m
  | wrapError m _ => m
  end.

(** [fmt.Errorf(prefix + "%w", cause)]. *)
Definition Errorf (prefix : string) (cause : error) : error :=
  wrapError (prefix +:+ Error cause) cause.

#[export] Instance error_eq_dec : EqDecision error.
Proof. solve_decision. Defined.

(** [strconv.Itoa] on a Go [int]. *)
Definition Itoa (n : Z) : string :=
  NilZero.string_of_int (Z.to_int n).

(** [strings.Contains]: [sub] occurs in [s]. *)
Definition Contains (s sub : string) : bool :=
  match String.index 0 sub s with
  | Some _ => true
  | None => false
  end.

(** ** [contains] (main.go, l. 252) *)

Fixpoint contains (slice : list string) (value : string) : bool :=
  match slice with
  | [] => false
  | item :: rest => if String.eqb item value then true else contains rest value
  end.

(** ** [strings.Split] with a one-byte separator, as [getDatabases] calls it *)

Fixpoint Split (s : string) (sep : ascii) : list string :=
  match s with
  | EmptyString => [EmptyString]
  | String c s' =>
      if Ascii.eqb c sep then EmptyString :: Split s' sep
      else match Split s' sep with
           | [] => [String c EmptyString]
           | h :: t => String c h :: t
           end
  end.

Definition comma : ascii := ascii_of_nat 44.
Definition newline : ascii := ascii_of_nat 10.
Definition carriage : ascii := ascii_of_nat 13.
Definition slash : ascii := ascii_of_nat 47.

(** ** [bufio.Scanner] with the default [ScanLines] split function *)

(** [bufio.MaxScanTokenSize]. *)
Definition MaxScanTokenSize : Z := 64 * 1024.

Definition ErrTooLong : error := errorString "bufio.Scanner: token too long".

(** The newline-terminated segments of the input, and the unterminated
    tail when it is not empty. *)
Fixpoint rawLines (s : string) : list string :=
  match s with
  | EmptyString => []
  | String c s' =>
      if Ascii.eqb c newline then EmptyString :: rawLines s'
      else match rawLines s' with
           | [] => [String c EmptyString]
           | h :: t => String c h :: t
           end
  end.

(** [dropCR]: one trailing carriage return is removed. *)
Fixpoint dropCR (s : string) : string :=
  match s with
  | EmptyString => EmptyString
  | String c EmptyString => if Ascii.eqb c carriage then EmptyString else s
  | String c s' => String c (dropCR s')
  end.

(** The tokens [Scan]/[Text] yield, and the value of [Err] after the loop:
    a line that does not fit the buffer stops the scan with [ErrTooLong]. *)
Fixpoint scanTokens (ls : list string) : list string * option error :=
  match ls with
  | [] => ([], None)
  | l :: rest =>
      if MaxScanTokenSize <=? Z.of_nat (String.length l) then ([], Some ErrTooLong)
      else let '(ts, e) := scanTokens rest in (dropCR l :: ts, e)
  end.

Definition Scanner (input : string) : list string * option error :=
  scanTokens (rawLines input).

(** ** The environment *)

(** How a [mysqldump] child process ends. *)
Inductive ProcessState : Type :=
| Exited (code : Z)
| Signaled (sig : string).

(** [cmd.Wait]: nil exactly when the process exits with status zero. *)
Definition waitError (st : ProcessState) : option error :=
  match st with
  | Exited code =>
      if code =? 0 then None else Some (errorString ("exit status " +:+ Itoa code))
  | Signaled sig => Some (errorString ("signal: " +:+ sig))
  end.

(** What one [exec.Command] does when it is run through a pipe. *)
Record Process : Type := mkProcess {
  pipe_err : option error;     (* cmd.StdoutPipe *)
  start_err : option error;    (* cmd.Start *)
  proc_state : ProcessState    (* the state cmd.Wait observes *)
}.

(** What the object store and the stream do for one destination object. *)
Record Sink : Type := mkSink {
  copy_err : option error;         (* io.Copy(bufWriter, reader) *)
  flush_err : option error;        (* bufWriter.Flush *)
  gzip_close_err : option error;   (* gzipWriter.Close *)
  writer_close_err : option error; (* writer.Close *)
  attrs_err : option error         (* object.Attrs *)
}.

Record Env : Type := mkEnv {
  (* cmd.Output() of exec.Command(name, args...) *)
  cmdOutput : string -> list string -> string * option error;
  (* the child process of exec.Command(name, args...) run with a pipe *)
  cmdProcess : string -> list string -> Process;
  (* the remote object of a given name *)
  gcsObject : string -> Sink;
  (* os.Hostname() *)
  osHostname : string * option error;
  (* storage.NewClient *)
  newClientErr : option error
}.

(** ** [getDatabases] (l. 161) and [getTables] (l. 194) *)

Definition getDatabases (env : Env) (dbUser dbPass dbHost dbPort skipDBs : string)
  : list string * option error :=
  let '(output, err) :=
    cmdOutput env "mysql"
      ["--user=" +:+ dbUser; "--password=" +:+ dbPass; "--host=" +:+ dbHost;
       "--port=" +:+ dbPort; "--skip-column-names"; "-e"; "SHOW DATABASES"] in
  match err with
  | Some e => ([], Some (Errorf "failed to execute mysql command: " e))
  | None =>
      let skipDBList := Split skipDBs comma in
      let '(lines, serr) := Scanner output in
      let databases :=
        List.filter (fun database => negb (contains skipDBList database)) lines in
      match serr with
      | Some e => ([], Some (Errorf "failed to read output from mysql command: " e))
      | None => (databases, None)
      end
  end.

Definition getTables (env : Env) (dbUser dbPass dbHost dbPort database : string)
  : list string * option error :=
  let '(output, err) :=
    cmdOutput env "mysql"
      ["--user=" +:+ dbUser; "--password=" +:+ dbPass; "--host=" +:+ dbHost;
       "--port=" +:+ dbPort; "--skip-column-names"; "-e";
       "SHOW TABLES FROM `" +:+ database +:+ "`"] in
  match err with
  | Some e => ([], Some (Errorf "failed to execute mysql command: " e))
  | None =>
      let '(tables, serr) := Scanner output in
      match serr with
      | Some e => ([], Some (Errorf "failed to read output from mysql command: " e))
      | None => (tables, None)
      end
  end.

(** ** Time and the layout ["2006-01-02-15"] *)

(** A reading of [time.Now()], as the fields [Format] works on. *)
Record Time : Type := mkTime {
  year : Z; month : Z; day : Z; hour : Z; minute : Z; second : Z
}.

(** [appendInt] of package [time]: sign, then the decimal digits padded
    with zeros to [width]. *)
Definition appendInt (x : Z) (width : nat) : string :=
  let digits := NilZero.string_of_uint (N.to_uint (Z.abs_N x)) in
  let pad := String.concat "" (replicate (width - String.length digits)%nat "0") in
  (if x <? 0 then "-" else "") +:+ pad +:+ digits.

(** [t.Format("2006-01-02-15")]. *)
Definition Format (t : Time) : string :=
  appendInt (year t) 4 +:+ "-" +:+ appendInt (month t) 2 +:+ "-" +:+
  appendInt (day t) 2 +:+ "-" +:+ appendInt (hour t) 2.

(** Two readings fall in the same hour. *)
Definition sameHour (t1 t2 : Time) : Prop :=
  year t1 = year t2 /\ month t1 = month t2 /\ day t1 = day t2 /\ hour t1 = hour t2.

(** ** Object names *)

(** [backupPath] of a table task (l. 98). *)
Definition backupPath (hostname : string) (now : Time) (database : string) : string :=
  hostname +:+ "/" +:+ Format now +:+ "/" +:+ database.

(** The object name [uploadToGCS] builds (l. 224). *)
Definition objectName (path table : string) : string :=
  path +:+ "/" +:+ table +:+ ".sql.gz".

(** The object key of a table, from the four values it is derived from. *)
Definition objectKey (hostname : string) (now : Time) (database table : string) : string :=
  objectName (backupPath hostname now database) table.

(** ** Calls to the outside world *)

(** The external operations a table task performs, in the order they are
    issued. *)
Inductive Call : Type :=
| CStdoutPipe (args : list string)
| CStart (args : list string)
| CNewWriter (object : string)
| CCopy (object : string)
| CFlush (object : string)
| CGzipClose (object : string)
| CWriterClose (object : string)
| CAttrs (object : string)
| CWait (args : list string)
| CKill (args : list string).

#[export] Instance Call_eq_dec : EqDecision Call.
Proof. solve_decision. Defined.

(** A computation that issues calls: the log of the calls made so far is
    threaded through, the newest call last. *)
Definition M (A : Type) : Type := list Call -> A * list Call.

Definition ret {A} (a : A) : M A := fun log => (a, log).

Definition bind {A B} (m : M A) (k : A -> M B) : M B :=
  fun log => let '(a, log') := m log in k a log'.

(** Issue [c]; the world answers [r]. *)
Definition call {A} (c : Call) (r : A) : M A := fun log => (r, log ++ [c]).

(** [if err := m; err != nil { return wrap(err) }] followed by [k]. *)
Definition check (m : M (option error)) (wrap : error -> error)
    (k : M (option error)) : M (option error) :=
  bind m (fun r => match r with
                   | Some e => ret (Some (wrap e))
                   | None => k
                   end).

Notation "'do' m 'orReturn' w ; k" := (check m w k)
  (at level 10, m at level 200, w at level 200, k at level 200,
   format "'[v' 'do'  m  'orReturn'  w ; '/' k ']'").

Definition run {A} (m : M A) : A * list Call := m [].

(** ** [uploadToGCS] (l. 223) *)

Definition chunkSize : Z := 16 * 1024.

Definition uploadToGCS (env : Env) (backupPath table : string) : M (option error) :=
  let object := objectName backupPath table in
  let sink := gcsObject env object in
  bind (call (CNewWriter object) tt) (fun _ =>
  do call (CCopy object) (copy_err sink)
     orReturn Errorf ("failed to upload backup for table " +:+ dquote +:+ table
                      +:+ dquote +:+ " to GCS: ");
  do call (CFlush object) (flush_err sink)
     orReturn Errorf "failed to close bufWriter: ";
  do call (CGzipClose object) (gzip_close_err sink)
     orReturn Errorf "failed to close gzipWriter: ";
  do call (CWriterClose object) (writer_close_err sink)
     orReturn Errorf "failed to close writer: ";
  do call (CAttrs object) (attrs_err sink)
     orReturn Errorf "failed to retrieve attributes for GCS object: ";
  ret None).

(** ** The table task: the closure given to [tableGroup.Go] (l. 97-140) *)

Definition mysqldumpArgs (dbUser dbPass dbHost dbPort database table : string)
  : list string :=
  ["--user=" +:+ dbUser; "--password=" +:+ dbPass; "--host=" +:+ dbHost;
   "--port=" +:+ dbPort; "--routines"; "--triggers"; "--dump-date"; "--quick";
   "--create-options"; "--skip-extended-insert"; "--hex-blob";
   "--default-character-set=utf8mb4"; "--skip-lock-tables"; database; table].

(** The command-line flags of a run, and the width of [int] and [uint] on
    the platform the binary was built for. *)
Record Config : Type := mkConfig {
  dbUser : string;
  dbPass : string;
  dbHost : string;
  dbPort : string;
  bucketName : string;
  dbLimit : Z;       (* uint *)
  tableLimit : Z;    (* uint *)
  skipDBs : string;
  intSize : Z
}.

(** The default of the [skipDBs] flag (l. 43). *)
Definition defaultSkipDBs : string := "information_schema,performance_schema,test".

Definition tableTask (env : Env) (cfg : Config) (hostname : string) (now : Time)
    (database table : string) : M (option error) :=
  let path := backupPath hostname now database in
  let args := mysqldumpArgs (dbUser cfg) (dbPass cfg) (dbHost cfg) (dbPort cfg)
                database table in
  let cmd := cmdProcess env "mysqldump" args in
  do call (CStdoutPipe args) (pipe_err cmd)
     orReturn Errorf "failed to create stdout pipe for mysqldump command: ";
  do call (CStart args) (start_err cmd)
     orReturn Errorf "failed to start mysqldump command: ";
  do uploadToGCS env path table
     orReturn Errorf ("failed to upload backup for table " +:+ dquote +:+ database
                      +:+ "." +:+ table +:+ dquote +:+ " to GCS: ");
  do call (CWait args) (waitError (proc_state cmd))
     orReturn Errorf "failed to wait for mysqldump command: ";
  ret None.

(** The value the task returns, and the calls it made. *)
Definition taskResult (env : Env) (cfg : Config) (hostname : string) (now : Time)
    (database table : string) : option error :=
  fst (run (tableTask env cfg hostname now database table)).

Definition taskCalls (env : Env) (cfg : Config) (hostname : string) (now : Time)
    (database table : string) : list Call :=
  snd (run (tableTask env cfg hostname now database table)).

(** The child process was started by the calls in [log]. *)
Definition spawned (log : list Call) : bool :=
  existsb (fun c => match c with CStart _ => true | _ => false end) log.

(** The dump stream was read to its end by the calls in [log]: [io.Copy]
    was issued and returned nil. *)
Definition drained (env : Env) (log : list Call) : bool :=
  existsb (fun c => match c with
                    | CCopy o => match copy_err (gcsObject env o) with
                                 | None => true
                                 | Some _ => false
                                 end
                    | _ => false
                    end) log.

(** The child process was waited on or killed by the calls in [log]. *)
Definition reaped (log : list Call) : bool :=
  existsb (fun c => match c with CWait _ | CKill _ => true | _ => false end) log.

(** ** [errgroup.Group] *)

(** The group of package [golang.org/x/sync/errgroup] as [main] uses it:
    a token channel that bounds the goroutines, a WaitGroup that counts
    them, and the first error returned.  A group made by [new] has no
    context, so recording an error cancels nothing. *)

Record Group : Type := mkGroup {
  sem : option nat;     (* capacity of the token channel; None: g.sem == nil *)
  tokens : nat;         (* len(g.sem) *)
  wg : nat;             (* the WaitGroup counter *)
  err : option error    (* g.err, written once under errOnce *)
}.

(** [new(errgroup.Group)]: the zero Group has no limit and no [cancel]. *)
Definition newGroup : Group := mkGroup None 0 0 None.

(** [g.SetLimit(n)]: a negative [n] removes the limit; changing the limit
    while goroutines are active panics ([None]). *)
Definition SetLimit (g : Group) (n : Z) : option Group :=
  if n <? 0 then Some (mkGroup None 0 (wg g) (err g))
  else if negb (tokens g =? 0)%nat then None
  else Some (mkGroup (Some (Z.to_nat n)) 0 (wg g) (err g)).

(** The first half of [g.Go(f)]: [g.sem <- token{}] and [g.wg.Add(1)].
    [None] when the send blocks. *)
Definition acquire (g : Group) : option Group :=
  match sem g with
  | None => Some (mkGroup None (tokens g) (S (wg g)) (err g))
  | Some cap =>
      if (tokens g <? cap)%nat
      then Some (mkGroup (Some cap) (S (tokens g)) (S (wg g)) (err g))
      else None
  end.

(** The end of the goroutine [g.Go] spawned, [f] having returned [r]:
    [errOnce] keeps the first non-nil error, [g.done()] gives the token
    back and decrements the WaitGroup. *)
Definition done (g : Group) (r : option error) : Group :=
  mkGroup (sem g)
          (match sem g with Some _ => pred (tokens g) | None => tokens g end)
          (pred (wg g))
          (match err g with
           | Some e => Some e
           | None => r
           end).

(** [g.Wait()]: blocks ([None]) until the counter is zero, then returns
    [g.err]; there is no [cancel] to call. *)
Definition Wait (g : Group) : option (option error) :=
  if (wg g =? 0)%nat then Some (err g) else None.

(** The conversion [int(u)] of a [uint] on a platform of [bits]-bit ints. *)
Definition toInt (bits : Z) (u : Z) : Z :=
  if u <? 2 ^ (bits - 1) then u else u - 2 ^ bits.

Definition maxInt (bits : Z) : Z := 2 ^ (bits - 1) - 1.

(** ** [main] (l. 25) *)

(** The reasons [main] stops through [log.Fatal]. *)
Inductive Fatal : Type :=
| FatalArgs
| FatalHostname (e : error)
| FatalDatabases (e : error)
| FatalClient (e : error)
| FatalBackup (e : error).

#[export] Instance Fatal_eq_dec : EqDecision Fatal.
Proof. solve_decision. Defined.

(** The text [log.Fatalf] prints when the backup fails (l. 155). *)
Definition fatalBackupMessage (e : error) : string :=
  "Database backup failed: " +:+ Error e.

(** [main] up to the creation of the bucket handle (l. 47-75): the host
    name and the databases to back up, or the fatal error. *)
Definition prelude (env : Env) (cfg : Config) : Fatal + string * list string :=
  if String.eqb (dbUser cfg) "" || String.eqb (dbPass cfg) ""
     || String.eqb (bucketName cfg) ""
  then inl FatalArgs
  else
    let '(hostname, herr) := osHostname env in
    match herr with
    | Some e => inl (FatalHostname e)
    | None =>
        let '(databases, derr) :=
          getDatabases env (dbUser cfg) (dbPass cfg) (dbHost cfg) (dbPort cfg)
            (skipDBs cfg) in
        match derr with
        | Some e => inl (FatalDatabases e)
        | None =>
            match newClientErr env with
            | Some e => inl (FatalClient e)
            | None => inr (hostname, databases)
            end
        end
    end.

(** A goroutine of [tableGroup]: the table it dumps and its reading of
    [time.Now()]. *)
Record Task : Type := mkTask { t_table : string; t_now : Time }.

(** A goroutine of [dbGroup]: before [getTables] returns, or inside the
    loop over [tables], [next] being the index the [range] is at. *)
Inductive Job : Type :=
| JobInit (database : string)
| JobLoop (database : string) (tables : list string) (next : nat)
    (tableGroup : Group) (tasks : gmap nat Task).

(** The main goroutine and the goroutines it has spawned. *)
Record State : Type := mkState {
  m_next : nat;                      (* index the range over databases is at *)
  m_group : Group;                   (* dbGroup *)
  m_jobs : gmap nat Job;             (* running jobs, by database index *)
  m_exit : option (option error)     (* what dbGroup.Wait returned *)
}.

Inductive Event : Type :=
| EvJobStart (i : nat) (database : string)
| EvTables (i : nat) (tables : list string)
| EvTaskStart (i k : nat) (table : string) (now : Time)
| EvTaskEnd (i k : nat) (res : option error)
| EvJobEnd (i : nat) (res : option error)
| EvExit (res : option error).

Section Run.
Variable env : Env.
Variable cfg : Config.
Variable hostname : string.
Variable databases : list string.

Definition tablesOf (database : string) : list string * option error :=
  getTables env (dbUser cfg) (dbPass cfg) (dbHost cfg) (dbPort cfg) database.

Definition setJob (s : State) (i : nat) (j : Job) : State :=
  mkState (m_next s) (m_group s) (<[i := j]> (m_jobs s)) (m_exit s).

(** The job [i] returns [r]: its goroutine ends in [dbGroup]. *)
Definition endJob (s : State) (i : nat) (r : option error) : State :=
  mkState (m_next s) (done (m_group s) r) (delete i (m_jobs s)) (m_exit s).

Inductive step : State -> Event -> State -> Prop :=
(* dbGroup.Go (l. 83) *)
| step_db_go s database g :
    m_exit s = None ->
    databases !! m_next s = Some database ->
    acquire (m_group s) = Some g ->
    step s (EvJobStart (m_next s) database)
      (mkState (S (m_next s)) g
         (<[m_next s := JobInit database]> (m_jobs s)) (m_exit s))
(* getTables fails (l. 86-89) *)
| step_tables_err s i database e r :
    m_jobs s !! i = Some (JobInit database) ->
    snd (tablesOf database) = Some e ->
    r = Some (Errorf ("failed to retrieve list of tables for database "
                      +:+ database +:+ ": ") e) ->
    step s (EvJobEnd i r) (endJob s i r)
(* getTables succeeds, tableGroup is set up (l. 86-92) *)
| step_tables_ok s i database g :
    m_jobs s !! i = Some (JobInit database) ->
    snd (tablesOf database) = None ->
    SetLimit newGroup (toInt (intSize cfg) (tableLimit cfg)) = Some g ->
    step s (EvTables i (fst (tablesOf database)))
      (setJob s i (JobLoop database (fst (tablesOf database)) 0 g ∅))
(* tableGroup.Go (l. 97) *)
| step_table_go s i database tables k g tasks table g' now :
    m_jobs s !! i = Some (JobLoop database tables k g tasks) ->
    tables !! k = Some table ->
    acquire g = Some g' ->
    step s (EvTaskStart i k table now)
      (setJob s i (JobLoop database tables (S k) g'
                     (<[k := mkTask table now]> tasks)))
(* a table task returns (l. 98-139) *)
| step_table_done s i database tables k g tasks j task r :
    m_jobs s !! i = Some (JobLoop database tables k g tasks) ->
    tasks !! j = Some task ->
    r = taskResult env cfg hostname (t_now task) database (t_table task) ->
    step s (EvTaskEnd i j r)
      (setJob s i (JobLoop database tables k (done g r) (delete j tasks)))
(* tableGroup.Wait returns and the job with it (l. 143-150) *)
| step_job_wait s i database tables k g tasks r :
    m_jobs s !! i = Some (JobLoop database tables k g tasks) ->
    k = length tables ->
    Wait g = Some r ->
    step s (EvJobEnd i r) (endJob s i r)
(* dbGroup.Wait returns (l. 154) *)
| step_main_wait s r :
    m_exit s = None ->
    m_next s = length databases ->
    Wait (m_group s) = Some r ->
    step s (EvExit r) (mkState (m_next s) (m_group s) (m_jobs s) (Some r)).

(** Executions from the state in which [main] enters the loop over
    [databases]; the history has the newest event first. *)
Inductive exec : list Event -> State -> Prop :=
| exec_init g :
    prelude env cfg = inr (hostname, databases) ->
    SetLimit newGroup (toInt (intSize cfg) (dbLimit cfg)) = Some g ->
    exec [] (mkState 0 g ∅ None)
| exec_step h s ev s' :
    exec h s -> step s ev s' -> exec (ev :: h) s'.

End Run.

(** ** Replaying a history *)

#[export] Instance Time_eq_dec : EqDecision Time.
Proof. solve_decision. Defined.

Section Replay.
Variable env : Env.
Variable cfg : Config.
Variable hostname : string.
Variable databases : list string.

(** The state [ev] leads to from [s], when [ev] can happen in [s]. *)
Definition stepf (s : State) (ev : Event) : option State :=
  match ev with
  | EvJobStart i database =>
      match m_exit s, acquire (m_group s) with
      | None, Some g =>
          if decide (i = m_next s /\ databases !! i = Some database)
          then Some (mkState (S (m_next s)) g
                       (<[m_next s := JobInit database]> (m_jobs s)) (m_exit s))
          else None
      | _, _ => None
      end
  | EvTables i tables =>
      match m_jobs s !! i with
      | Some (JobInit database) =>
          match snd (tablesOf env cfg database),
                SetLimit newGroup (toInt (intSize cfg) (tableLimit cfg)) with
          | None, Some g =>
              if decide (tables = fst (tablesOf env cfg database))
              then Some (setJob s i
                           (JobLoop database (fst (tablesOf env cfg database)) 0 g ∅))
              else None
          | _, _ => None
          end
      | _ => None
      end
  | EvTaskStart i k table now =>
      match m_jobs s !! i with
      | Some (JobLoop database tables k' g tasks) =>
          match acquire g with
          | Some g' =>
              if decide (k = k' /\ tables !! k' = Some table)
              then Some (setJob s i
                           (JobLoop database tables (S k') g'
                              (<[k' := mkTask table now]> tasks)))
              else None
          | None => None
          end
      | _ => None
      end
  | EvTaskEnd i j r =>
      match m_jobs s !! i with
      | Some (JobLoop database tables k g tasks) =>
          match tasks !! j with
          | Some task =>
              let r' := taskResult env cfg hostname (t_now task) database
                          (t_table task) in
              if decide (r = r')
              then Some (setJob s i
                           (JobLoop database tables k (done g r') (delete j tasks)))
              else None
          | None => None
          end
      | _ => None
      end
  | EvJobEnd i r =>
      match m_jobs s !! i with
      | Some (JobInit database) =>
          match snd (tablesOf env cfg database) with
          | Some e =>
              let r' := Some (Errorf ("failed to retrieve list of tables for database "
                                      +:+ database +:+ ": ") e) in
              if decide (r = r') then Some (endJob s i r') else None
          | None => None
          end
      | Some (JobLoop database tables k g tasks) =>
          match Wait g with
          | Some r' =>
              if decide (k = length tables /\ r = r')
              then Some (endJob s i r')
              else None
          | None => None
          end
      | None => None
      end
  | EvExit r =>
      match m_exit s, Wait (m_group s) with
      | None, Some r' =>
          if decide (m_next s = length databases /\ r = r')
          then Some (mkState (m_next s) (m_group s) (m_jobs s) (Some r'))
          else None
      | _, _ => None
      end
  end.

(** The state in which [main] enters its loop. *)
Definition initState : option State :=
  match SetLimit newGroup (toInt (intSize cfg) (dbLimit cfg)) with
  | Some g =>
      if decide (prelude env cfg = inr (hostname, databases))
      then Some (mkState 0 g ∅ None)
      else None
  | None => None
  end.

(** The state a history, newest event first, leads to. *)
Fixpoint replay (h : list Event) : option State :=
  match h with
  | [] => initState
  | ev :: h' =>
      match replay h' with
      | Some s => stepf s ev
      | None => None
      end
  end.

End Replay.

(** ** Vocabulary of the properties *)

(** [strings.TrimSpace] restricted to the space character, and ASCII
    [strings.ToLower]: the normalisations [contains] does not perform. *)
Definition space : ascii := ascii_of_nat 32.

Fixpoint trimLeft (s : string) : string :=
  match s with
  | String c s' => if Ascii.eqb c space then trimLeft s' else s
  | EmptyString => EmptyString
  end.

Fixpoint trimRight (s : string) : string :=
  match s with
  | EmptyString => EmptyString
  | String c s' =>
      match trimRight s' with
      | EmptyString => if Ascii.eqb c space then EmptyString else String c EmptyString
      | r => String c r
      end
  end.

Definition trimSpace (s : string) : string := trimRight (trimLeft s).

Definition lowerByte (c : ascii) : ascii :=
  let n := nat_of_ascii c in
  if ((65 <=? n) && (n <=? 90))%nat then ascii_of_nat (n + 32) else c.

Fixpoint toLower (s : string) : string :=
  match s with
  | EmptyString => EmptyString
  | String c s' => String (lowerByte c) (toLower s')
  end.

(** No byte of [s] is a slash. *)
Fixpoint noSlash (s : string) : bool :=
  match s with
  | EmptyString => true
  | String c s' => negb (Ascii.eqb c slash) && noSlash s'
  end.

(** ** Sample runs *)

Definition sampleCfg : Config :=
  mkConfig "backup" "secret" "localhost" "3306" "dumps" 2 1 defaultSkipDBs 64.

Definition nl : string := String newline EmptyString.

(** A server with the schemas [information_schema], [appdb] and [test];
    [appdb] has the tables [orders] and [users]. *)
Definition sampleOutput (name : string) (args : list string) : string * option error :=
  if String.eqb (List.last args "") "SHOW DATABASES"
  then ("information_schema" +:+ nl +:+ "appdb" +:+ nl +:+ "test" +:+ nl, None)
  else if String.eqb (List.last args "") "SHOW TABLES FROM `appdb`"
  then ("orders" +:+ nl +:+ "users" +:+ nl, None)
  else ("", Some (errorString "exit status 1")).

Definition okSink : Sink := mkSink None None None None None.

(** Every dump and upload succeeds. *)
Definition envOk : Env :=
  mkEnv sampleOutput (fun _ _ => mkProcess None None (Exited 0))
        (fun _ => okSink) ("db1", None) None.

(** The dump of [orders] exits with status 2 after its output was read
    and uploaded. *)
Definition envDumpFails : Env :=
  mkEnv sampleOutput
        (fun _ args => mkProcess None None
           (if String.eqb (List.last args "") "orders" then Exited 2 else Exited 0))
        (fun _ => okSink) ("db1", None) None.

(** The object store rejects a write while the dump is streamed. *)
Definition envUploadFails : Env :=
  mkEnv sampleOutput (fun _ _ => mkProcess None None (Exited 0))
        (fun _ => mkSink (Some (errorString "googleapi: Error 503")) None None None None)
        ("db1", None) None.

(** The metadata of the finalized object cannot be fetched. *)
Definition envAttrsFail : Env :=
  mkEnv sampleOutput (fun _ _ => mkProcess None None (Exited 0))
        (fun _ => mkSink None None None None
                    (Some (errorString "storage: object doesn't exist")))
        ("db1", None) None.

Definition morning : Time := mkTime 2024 3 7 9 59 59.
Definition later : Time := mkTime 2024 3 7 10 0 0.

(** The error of the task that dumps [orders] in [envDumpFails]. *)
Definition failedOrders : error :=
  Errorf "failed to wait for mysqldump command: " (errorString "exit status 2").

(** A run of [envDumpFails] with [tableLimit] 1, newest event first: the
    dump of [orders] fails at 09:59:59, the dump of [users] is started
    afterwards, at 10:00:00, and succeeds. *)
Definition sampleHistory : list Event :=
  [EvExit (Some failedOrders);
   EvJobEnd 0 (Some failedOrders);
   EvTaskEnd 0 1 None;
   EvTaskStart 0 1 "users" later;
   EvTaskEnd 0 0 (Some failedOrders);
   EvTaskStart 0 0 "orders" morning;
   EvTables 0 ["orders"; "users"];
   EvJobStart 0 "appdb"].

(** A server with the schemas [emptydb], which has no table, and
    [gonedb], whose tables cannot be listed. *)
Definition sampleOutput2 (name : string) (args : list string) : string * option error :=
  if String.eqb (List.last args "") "SHOW DATABASES"
  then ("emptydb" +:+ nl +:+ "gonedb" +:+ nl, None)
  else if String.eqb (List.last args "") "SHOW TABLES FROM `emptydb`"
  then ("", None)
  else ("", Some (errorString "exit status 1")).

Definition envTwo : Env :=
  mkEnv sampleOutput2 (fun _ _ => mkProcess None None (Exited 0))
        (fun _ => okSink) ("db1", None) None.

(** The error of the job of [gonedb] in [envTwo]. *)
Definition goneError : error :=
  Errorf "failed to retrieve list of tables for database gonedb: "
    (Errorf "failed to execute mysql command: " (errorString "exit status 1")).

(** A run of [envTwo], newest event first. *)
Definition historyTwo : list Event :=
  [EvExit (Some goneError);
   EvJobEnd 1 (Some goneError);
   EvJobEnd 0 None;
   EvTables 0 [];
   EvJobStart 1 "gonedb";
   EvJobStart 0 "emptydb"].

(** The sample flags with one of the limits set to zero. *)
Definition cfgNoJob : Config :=
  mkConfig "backup" "secret" "localhost" "3306" "dumps" 0 1 defaultSkipDBs 64.

Definition cfgNoTask : Config :=
  mkConfig "backup" "secret" "localhost" "3306" "dumps" 2 0 defaultSkipDBs 64.

(** A run that has listed the tables of [appdb], newest event first. *)
Definition historyListed : list Event :=
  [EvTables 0 ["orders"; "users"]; EvJobStart 0 "appdb"].

(** ** Histories of a run *)

(** The limit a group gets from a [uint] flag: [SetLimit(int(u))]. *)
Definition limitOf (bits u : Z) : option nat :=
  if toInt bits u <? 0 then None else Some (Z.to_nat (toInt bits u)).

(** The error with which [ev] ends a table task of job [i], if it does. *)
Definition taskFailure (i : nat) (ev : Event) : option error :=
  match ev with
  | EvTaskEnd i' _ (Some e) => if decide (i' = i) then Some e else None
  | _ => None
  end.

(** The error of the first table task of job [i] that failed. *)
Fixpoint firstTaskErr (i : nat) (h : list Event) : option error :=
  match h with
  | [] => None
  | ev :: h' =>
      match firstTaskErr i h' with
      | Some e => Some e
      | None => taskFailure i ev
      end
  end.

Definition jobFailure (ev : Event) : option error :=
  match ev with
  | EvJobEnd _ (Some e) => Some e
  | _ => None
  end.

(** The error of the first job that failed. *)
Fixpoint firstJobErr (h : list Event) : option error :=
  match h with
  | [] => None
  | ev :: h' =>
      match firstJobErr h' with
      | Some e => Some e
      | None => jobFailure ev
      end
  end.

(** The number of table tasks job [i] has started. *)
Fixpoint started (i : nat) (h : list Event) : nat :=
  match h with
  | [] => 0
  | EvTaskStart i' _ _ _ :: h' =>
      if decide (i' = i) then S (started i h') else started i h'
  | _ :: h' => started i h'
  end.

(** [ev] is not an event of a table task of job [i]. *)
Definition quietFor (i : nat) (ev : Event) : Prop :=
  match ev with
  | EvTaskStart i' _ _ _ | EvTaskEnd i' _ _ => i' <> i
  | _ => True
  end.

(** The object a call names, when it names one. *)
Definition callObject (c : Call) : option string :=
  match c with
  | CNewWriter o | CCopy o | CFlush o | CGzipClose o | CWriterClose o | CAttrs o =>
      Some o
  | _ => None
  end.

(** The cancellation the specification describes: once a table task of a
    job has failed, the job starts no further table task. *)
Definition cancelsAfterFailure (env : Env) (cfg : Config) (hostname : string)
    (databases : list string) : Prop :=
  forall h s i database tables k g tasks table now s',
    exec env cfg hostname databases h s ->
    m_jobs s !! i = Some (JobLoop database tables k g tasks) ->
    err g <> None ->
    ~ step env cfg hostname databases s (EvTaskStart i k table now) s'.

(** The single run timestamp the specification describes: any two table
    tasks of a run format the same timestamp. *)
Definition sharedTimestamp (env : Env) (cfg : Config) (hostname : string)
    (databases : list string) : Prop :=
  forall h s i k table now i' k' table' now',
    exec env cfg hostname databases h s ->
    In (EvTaskStart i k table now) h ->
    In (EvTaskStart i' k' table' now') h ->
    Format now = Format now'.

(** Every table-level error a run reports names the schema and the table
    it comes from. *)
Definition reportNamesTable (env : Env) (cfg : Config) (hostname : string)
    (databases : list string) : Prop :=
  forall h s i j e database table now,
    exec env cfg hostname databases h s ->
    In (EvExit (Some e)) h ->
    In (EvJobStart i database) h ->
    In (EvTaskStart i j table now) h ->
    In (EvTaskEnd i j (Some e)) h ->
    Contains (fatalBackupMessage e) database = true
    /\ Contains (fatalBackupMessage e) table = true.

(** ** Invariants of the groups and of a run *)

(** A group set up with [SetLimit(int(u))] that has [n] goroutines. *)
Definition groupInv (bits u : Z) (g : Group) (n : nat) : Prop :=
  sem g = limitOf bits u /\ wg g = n /\
  match sem g with
  | Some cap => tokens g = n /\ (n <= cap)%nat
  | None => tokens g = 0%nat
  end.

(** A job in its loop holds the tables [getTables] returned, its group
    counts its running tasks, and the tasks it started are those below
    the index the loop is at. *)
Definition jobInv (env : Env) (cfg : Config) (j : Job) : Prop :=
  match j with
  | JobInit _ => True
  | JobLoop database tables k g tasks =>
      tables = fst (tablesOf env cfg database) /\
      groupInv (intSize cfg) (tableLimit cfg) g (size tasks) /\
      (size tasks <= k)%nat /\ (k <= length tables)%nat /\
      (forall j, (k <= j)%nat -> tasks !! j = None)
  end.

Definition stateInv (env : Env) (cfg : Config) (databases : list string)
    (s : State) : Prop :=
  groupInv (intSize cfg) (dbLimit cfg) (m_group s) (size (m_jobs s)) /\
  (size (m_jobs s) <= m_next s)%nat /\
  (m_next s <= length databases)%nat /\
  (forall i, (m_next s <= i)%nat -> m_jobs s !! i = None) /\
  (forall i j, m_jobs s !! i = Some j -> jobInv env cfg j).

(** What the history says about a running job [i]: nothing happened in
    it before its tables are listed; afterwards the loop index counts the
    tasks started, the group holds the first task failure, and every
    running task has its start event, with its own clock reading. *)
Definition jobHist (env : Env) (cfg : Config) (databases : list string)
    (h : list Event) (i : nat) (j : Job) : Prop :=
  match j with
  | JobInit database =>
      databases !! i = Some database /\ started i h = 0%nat /\
      firstTaskErr i h = None
  | JobLoop database tables k g tasks =>
      databases !! i = Some database /\
      snd (tablesOf env cfg database) = None /\
      started i h = k /\
      err g = firstTaskErr i h /\
      (forall j task, tasks !! j = Some task ->
         In (EvTaskStart i j (t_table task) (t_now task)) h)
  end.

Definition histInv (env : Env) (cfg : Config) (databases : list string)
    (h : list Event) (s : State) : Prop :=
  err (m_group s) = firstJobErr h /\
  (forall i, (m_next s <= i)%nat -> started i h = 0%nat /\ firstTaskErr i h = None) /\
  (forall i j, m_jobs s !! i = Some j -> jobHist env cfg databases h i j) /\
  (forall i database,
     (i < m_next s)%nat -> m_jobs s !! i = None ->
     databases !! i = Some database ->
     snd (tablesOf env cfg database) = None ->
     started i h = length (fst (tablesOf env cfg database))) /\
  (forall r, m_exit s = Some r ->
     r = firstJobErr h /\ m_next s = length databases /\ m_jobs s = ∅).

(** ** Vocabulary of the properties of strings and scanning *)

(** [strings.IndexByte(s, c) >= 0]. *)
Fixpoint hasByte (c : ascii) (s : string) : bool :=
  match s with
  | EmptyString => false
  | String x s' => Ascii.eqb x c || hasByte c s'
  end.

(** [strings.Count] of a one-byte separator. *)
Fixpoint countByte (c : ascii) (s : string) : nat :=
  match s with
  | EmptyString => 0
  | String x s' => (if Ascii.eqb x c then 1 else 0) + countByte c s'
  end.

(** [strings.Join]. *)
Fixpoint Join (elems : list string) (sep : string) : string :=
  match elems with
  | [] => ""
  | [x] => x
  | x :: rest => x +:+ sep +:+ Join rest sep
  end.

(** The last byte of [s] is [c]. *)
Fixpoint endsWith (c : ascii) (s : string) : bool :=
  match s with
  | EmptyString => false
  | String x EmptyString => Ascii.eqb x c
  | String _ s' => endsWith c s'
  end.

(** Every line followed by [terminator]. *)
Fixpoint terminated (terminator : string) (lines : list string) : string :=
  match lines with
  | [] => ""
  | l :: rest => l +:+ terminator +:+ terminated terminator rest
  end.

(** A line [Scan] gives back as it is: no newline inside and room in the
    buffer for it and [extra] more bytes. *)
Definition scannable (extra : Z) (l : string) : Prop :=
  hasByte newline l = false /\ Z.of_nat (String.length l) + extra < MaxScanTokenSize.

(** [errors.Unwrap]. *)
Definition Unwrap (e : error) : option error :=
  match e with
  | errorString _ => None
  | wrapError _ cause => Some cause
  end.

(** [errors.Is(e, target)] for errors compared by value: [target] is [e]
    or is reached from [e] by unwrapping. *)
Fixpoint Is (e target : error) : bool :=
  bool_decide (e = target)
  || match e with
     | errorString _ => false
     | wrapError _ cause => Is cause target
     end.

(** The arguments [getDatabases] and [getTables] give to [mysql], for the
    statement [query]. *)
Definition mysqlArgs (dbUser dbPass dbHost dbPort query : string) : list string :=
  ["--user=" +:+ dbUser; "--password=" +:+ dbPass; "--host=" +:+ dbHost;
   "--port=" +:+ dbPort; "--skip-column-names"; "-e"; query].

(** A token [Scan] can yield: no line feed in it, and shorter than the
    buffer. *)
Definition token (t : string) : Prop :=
  hasByte newline t = false /\ Z.of_nat (String.length t) < MaxScanTokenSize.

(** The first error of a sequence of results, nil when there is none. *)
Fixpoint firstErr (results : list (option error)) : option error :=
  match results with
  | [] => None
  | Some e :: _ => Some e
  | None :: rest => firstErr rest
  end.

(** The results of the stages of an upload, in the order of the code. *)
Definition sinkStages (sink : Sink) : list (option error) :=
  [copy_err sink; flush_err sink; gzip_close_err sink; writer_close_err sink;
   attrs_err sink].

(** The results of the steps of a table task, in the order of the code. *)
Definition taskStages (cmd : Process) (sink : Sink) : list (option error) :=
  [pipe_err cmd; start_err cmd] ++ sinkStages sink ++ [waitError (proc_state cmd)].

(** The calls of an upload that runs to its end. *)
Definition uploadCalls (object : string) : list Call :=
  [CNewWriter object; CCopy object; CFlush object; CGzipClose object;
   CWriterClose object; CAttrs object].

(** ** More about histories *)

(** The number of table tasks of job [i] that have returned. *)
Fixpoint ended (i : nat) (h : list Event) : nat :=
  match h with
  | [] => 0
  | EvTaskEnd i' _ _ :: h' =>
      if decide (i' = i) then S (ended i h') else ended i h'
  | _ :: h' => ended i h'
  end.

(** The job an event belongs to. *)
Definition eventJob (ev : Event) : option nat :=
  match ev with
  | EvJobStart i _ | EvTables i _ | EvTaskStart i _ _ _ | EvTaskEnd i _ _
  | EvJobEnd i _ => Some i
  | EvExit _ => None
  end.

(** What the job of [database], of index [i], returns: the wrapped error
    of [getTables], or else the first failure among its table tasks. *)
Definition jobOutcome (env : Env) (cfg : Config) (database : string) (i : nat)
    (h : list Event) : option error :=
  match snd (tablesOf env cfg database) with
  | Some e =>
      Some (Errorf ("failed to retrieve list of tables for database "
                    +:+ database +:+ ": ") e)
  | None => firstTaskErr i h
  end.

(** Job [i] has not returned. *)
Definition noJobEnd (i : nat) (h : list Event) : Prop :=
  forall r, ~ In (EvJobEnd i r) h.

(** What the history says of a running job: its started tasks are those
    that returned and those that run. *)
Definition jobRunning (h : list Event) (i : nat) (j : Job) : Prop :=
  noJobEnd i h /\
  match j with
  | JobInit _ => ended i h = 0%nat
  | JobLoop _ _ _ _ tasks => started i h = (ended i h + size tasks)%nat
  end.

(** What the history says of a job that returned: all its tasks returned
    before it did, it returned once, and what it returned is its outcome. *)
Definition jobFinished (env : Env) (cfg : Config) (databases : list string)
    (h : list Event) (i : nat) : Prop :=
  ended i h = started i h /\
  exists database,
    databases !! i = Some database /\
    In (EvJobEnd i (jobOutcome env cfg database i h)) h /\
    (forall r, In (EvJobEnd i r) h -> r = jobOutcome env cfg database i h) /\
    (snd (tablesOf env cfg database) <> None -> started i h = 0%nat).

Definition histInv2 (env : Env) (cfg : Config) (databases : list string)
    (h : list Event) (s : State) : Prop :=
  (forall i, (m_next s <= i)%nat -> ended i h = 0%nat /\ noJobEnd i h) /\
  (forall i j, m_jobs s !! i = Some j -> jobRunning h i j) /\
  (forall i, (i < m_next s)%nat -> m_jobs s !! i = None ->
             jobFinished env cfg databases h i) /\
  (forall i database, (i < m_next s)%nat -> databases !! i = Some database ->
                      In (EvJobStart i database) h).

(** ** The events a run has left *)

(** The events a database can give rise to: the start and the end of its
    job, the listing of its tables, and the start and the end of one task
    for each table. *)
Definition jobCost (env : Env) (cfg : Config) (database : string) : nat :=
  3 + 2 * length (fst (tablesOf env cfg database)).

(** The events a running job can still give rise to. *)
Definition jobLeft (env : Env) (cfg : Config) (j : Job) : nat :=
  match j with
  | JobInit database => 2 + 2 * length (fst (tablesOf env cfg database))
  | JobLoop _ tables k _ tasks => 1 + 2 * (length tables - k) + size tasks
  end.

(** The events the database of index [i] can still give rise to. *)
Definition indexLeft (env : Env) (cfg : Config) (databases : list string)
    (s : State) (i : nat) : nat :=
  match m_jobs s !! i with
  | Some j => jobLeft env cfg j
  | None =>
      if (i <? m_next s)%nat then 0%nat
      else from_option (jobCost env cfg) 0%nat (databases !! i)
  end.

(** The sum of [f] over the indices below [n]. *)
Fixpoint sumTo (f : nat -> nat) (n : nat) : nat :=
  match n with
  | O => 0
  | S n' => sumTo f n' + f n'
  end.

Definition eventsLeft (env : Env) (cfg : Config) (databases : list string)
    (s : State) : nat :=
  (match m_exit s with Some _ => 0 | None => 1 end)
  + sumTo (indexLeft env cfg databases s) (length databases).

(** ** Reading a timestamp back *)

(** The value of a decimal digit, and [strconv.Atoi] on a string of
    digits. *)
Definition digitValue (c : ascii) : Z := Z.of_nat (nat_of_ascii c) - 48.

Fixpoint parseDigits (acc : Z) (s : string) : Z :=
  match s with
  | EmptyString => acc
  | String c s' => parseDigits (10 * acc + digitValue c) s'
  end.

Definition Atoi (s : string) : Z := parseDigits 0 s.

(** [appendInt x width] has [width] bytes and reads back as [x]. *)
Definition fieldOk (width : nat) (x : Z) : bool :=
  (String.length (appendInt x width) =? width)%nat
  && (Atoi (appendInt x width) =? x).

(** A reading of the clock in the range of [time.Now()]. *)
Definition civil (t : Time) : Prop :=
  0 <= year t <= 9999 /\ 1 <= month t <= 12 /\ 1 <= day t <= 31
  /\ 0 <= hour t <= 23.

(** ** The earlier revision of [uploadToGCS] (unnamed/part_002, l. 195) *)

Module Legacy.

(** The calls of the earlier upload: it makes its own client and defers
    the closes. *)
Inductive Call : Type :=
| CNewClient
| CNewWriter (object : string)
| CCopy (object : string)
| CFlush (object : string)
| CGzipClose (object : string)
| CWriterClose (object : string)
| CClientClose.

(** The deferred calls, run when the function returns, last deferred
    first; what they return is dropped. *)
Definition deferred (object : string) : list Call :=
  [CGzipClose object; CWriterClose object; CClientClose].

Definition uploadToGCS (env : Env) (backupPath table : string)
  : option error * list Call :=
  match newClientErr env with
  | Some e =>
      (Some (Errorf "failed to create Google Cloud Storage client: " e),
       [CNewClient])
  | None =>
      let object := objectName backupPath table in
      let sink := gcsObject env object in
      match copy_err sink with
      | Some e =>
          (Some (Errorf ("failed to upload backup for table " +:+ table
                         +:+ " to Google Cloud Storage: ") e),
           [CNewClient; CNewWriter object; CCopy object] ++ deferred object)
      | None =>
          match flush_err sink with
          | Some e =>
              (Some (Errorf "failed to flush data to Google Cloud Storage: " e),
               [CNewClient; CNewWriter object; CCopy object; CFlush object]
               ++ deferred object)
          | None =>
              (None,
               [CNewClient; CNewWriter object; CCopy object; CFlush object]
               ++ deferred object)
          end
      end
  end.

End Legacy.

(** ** Each table once *)

(** The number of times job [i] has started the task of its table of
    index [k]. *)
Fixpoint startedAt (i k : nat) (h : list Event) : nat :=
  match h with
  | [] => 0
  | EvTaskStart i' k' _ _ :: h' =>
      if decide (i' = i /\ k' = k) then S (startedAt i k h') else startedAt i k h'
  | _ :: h' => startedAt i k h'
  end.

(** One start for each index below [bound], none above. *)
Definition onceBelow (bound : nat) (i : nat) (h : list Event) : Prop :=
  forall k, startedAt i k h = if (k <? bound)%nat then 1%nat else 0%nat.

Definition histInv3 (env : Env) (cfg : Config) (databases : list string)
    (h : list Event) (s : State) : Prop :=
  (forall i database tables k g tasks,
     m_jobs s !! i = Some (JobLoop database tables k g tasks) -> onceBelow k i h) /\
  (forall i database,
     (i < m_next s)%nat -> m_jobs s !! i = None ->
     databases !! i = Some database ->
     snd (tablesOf env cfg database) = None ->
     onceBelow (length (fst (tablesOf env cfg database))) i h) /\
  (forall i k table now,
     In (EvTaskStart i k table now) h ->
     exists database,
       databases !! i = Some database /\
       fst (tablesOf env cfg database) !! k = Some table).

(** * Properties *)

(** ** Strings *)

Lemma append_assoc (a b c : string) : (a +:+ b) +:+ c = a +:+ (b +:+ c).
Proof. induction a as [|x a IH]; [reflexivity|]. cbv [String.append]; fold String.append. by rewrite IH. Qed.

Lemma append_cons (x : ascii) (a b : string) : String x a +:+ b = String x (a +:+ b).
Proof. reflexivity. Qed.

Lemma append_nil_l (b : string) : "" +:+ b = b.
Proof. reflexivity. Qed.

Lemma length_append (a b : string) :
  String.length (a +:+ b) = (String.length a + String.length b)%nat.
Proof. induction a as [|x a IH]; [reflexivity|]. rewrite append_cons. simpl. by rewrite IH. Qed.

Lemma append_inj_r (a b c : string) : a +:+ c = b +:+ c -> a = b.
Proof.
  revert b. induction a as [|x a IH]; intros [|y b] H.
  - reflexivity.
  - apply (f_equal String.length) in H. rewrite append_nil_l, append_cons in H.
    simpl in H. rewrite length_append in H. lia.
  - apply (f_equal String.length) in H. rewrite append_nil_l, append_cons in H.
    simpl in H. rewrite length_append in H. lia.
  - rewrite !append_cons in H. injection H as -> H. f_equal. by apply IH.
Qed.

Lemma noSlash_split (s1 s2 r1 r2 : string) :
  noSlash s1 = true -> noSlash s2 = true ->
  s1 +:+ String slash r1 = s2 +:+ String slash r2 -> s1 = s2 /\ r1 = r2.
Proof.
  revert s2. induction s1 as [|x s1 IH]; intros [|y s2] H1 H2 H.
  - rewrite !append_nil_l in H. by injection H as ->.
  - rewrite append_nil_l, append_cons in H. injection H as <- _.
    unfold noSlash in H2. rewrite Ascii.eqb_refl in H2. discriminate.
  - rewrite append_nil_l, append_cons in H. injection H as -> _.
    unfold noSlash in H1. rewrite Ascii.eqb_refl in H1. discriminate.
  - rewrite !append_cons in H. injection H as -> H.
    simpl in H1, H2. apply andb_prop in H1 as [_ H1]. apply andb_prop in H2 as [_ H2].
    destruct (IH s2 H1 H2 H) as [-> ->]. done.
Qed.

(** ** Membership in the exclusion list *)

Lemma contains_In (slice : list string) (value : string) :
  contains slice value = true <-> In value slice.
Proof.
  induction slice as [|item rest IH]; simpl.
  - split; [discriminate | tauto].
  - destruct (String.eqb_spec item value) as [->|Hne].
    + split; auto.
    + rewrite IH. split; [tauto | intros [?|?]; [congruence | done]].
Qed.

Lemma contains_false (slice : list string) (value : string) :
  contains slice value = false <-> ~ In value slice.
Proof.
  rewrite <- contains_In. destruct (contains slice value); split; try done.
Qed.

(** What [getDatabases] returns is built from the scanned lines by
    dropping the members of the split exclusion string. *)
Lemma getDatabases_In env u p h port skip d :
  In d (fst (getDatabases env u p h port skip)) ->
  ~ In d (Split skip comma).
Proof.
  unfold getDatabases.
  destruct (cmdOutput env _ _) as [output [e|]]; simpl; [tauto|].
  destruct (Scanner output) as [lines [e|]]; simpl; [tauto|].
  intros [_ H]%List.filter_In. apply contains_false.
  by destruct (contains (Split skip comma) d).
Qed.

Lemma prelude_databases env cfg hostname databases :
  prelude env cfg = inr (hostname, databases) ->
  getDatabases env (dbUser cfg) (dbPass cfg) (dbHost cfg) (dbPort cfg) (skipDBs cfg)
  = (databases, None).
Proof.
  unfold prelude. destruct (_ || _); [discriminate|].
  destruct (osHostname env) as [hn [e|]]; [discriminate|].
  destruct (getDatabases _ _ _ _ _ _) as [dbs [e|]]; [discriminate|].
  destruct (newClientErr env); [discriminate|]. by intros [= _ ->].
Qed.

(** ** The upload and the table task *)

Ltac unfold_calls := cbv [run check bind call ret].

(** The calls of [uploadToGCS] are added to the log it is given; what it
    returns does not depend on that log. *)
Lemma uploadToGCS_log env path table log :
  uploadToGCS env path table log
  = (fst (run (uploadToGCS env path table)),
     log ++ snd (run (uploadToGCS env path table))).
Proof.
  unfold uploadToGCS. unfold_calls.
  destruct (gcsObject env (objectName path table)) as [[?|] [?|] [?|] [?|] [?|]];
    simpl; rewrite <- ?app_assoc; reflexivity.
Qed.

(** C6: [uploadToGCS] returns nil only when the copy, the flush of the
    buffered writer, the close of the compressor, the close of the remote
    writer and the fetch of the object's attributes all succeeded, the
    calls having been made in that order; when only the fetch of the
    attributes fails, all the writes were made and the transfer still
    returns an error. *)
Theorem uploadToGCS_success_requires_every_stage env path table :
  let object := objectName path table in
  let sink := gcsObject env object in
  (fst (run (uploadToGCS env path table)) = None ->
   copy_err sink = None /\ flush_err sink = None /\ gzip_close_err sink = None /\
   writer_close_err sink = None /\ attrs_err sink = None /\
   snd (run (uploadToGCS env path table))
   = [CNewWriter object; CCopy object; CFlush object; CGzipClose object;
      CWriterClose object; CAttrs object])
  /\ (forall e,
        copy_err sink = None -> flush_err sink = None ->
        gzip_close_err sink = None -> writer_close_err sink = None ->
        attrs_err sink = Some e ->
        fst (run (uploadToGCS env path table))
        = Some (Errorf "failed to retrieve attributes for GCS object: " e)
        /\ snd (run (uploadToGCS env path table))
           = [CNewWriter object; CCopy object; CFlush object; CGzipClose object;
              CWriterClose object; CAttrs object]).
Proof.
  intros object sink. unfold uploadToGCS. unfold_calls.
  fold object. fold sink.
  destruct sink as [[?|] [?|] [?|] [?|] [?|]]; simpl; split;
    try discriminate; try (intros _; repeat split; reflexivity);
    intros e' ? ? ? ? ?; simplify_eq; split; reflexivity.
Qed.

Lemma uploadToGCS_success_requires_every_stage_witness :
  (attrs_err (gcsObject envOk (objectName "db1/2024-03-07-09/appdb" "users")) = None)
  /\ fst (run (uploadToGCS envAttrsFail "db1/2024-03-07-09/appdb" "users"))
     = Some (Errorf "failed to retrieve attributes for GCS object: "
               (errorString "storage: object doesn't exist")).
Proof.
  split.
  - apply (proj1 (uploadToGCS_success_requires_every_stage
                    envOk "db1/2024-03-07-09/appdb" "users")).
    reflexivity.
  - apply (proj2 (uploadToGCS_success_requires_every_stage
                    envAttrsFail "db1/2024-03-07-09/appdb" "users"));
      reflexivity.
Defined.

(** C4: a table task whose dump process exits with a non-zero status
    returns an error; when the pipe, the start and the whole upload
    succeeded, that error is the exit status wrapped by the task. *)
Theorem nonzero_exit_fails_task env cfg hostname now database table code :
  let args := mysqldumpArgs (dbUser cfg) (dbPass cfg) (dbHost cfg) (dbPort cfg)
                database table in
  let cmd := cmdProcess env "mysqldump" args in
  proc_state cmd = Exited code -> code <> 0 ->
  taskResult env cfg hostname now database table <> None
  /\ (pipe_err cmd = None -> start_err cmd = None ->
      fst (run (uploadToGCS env (backupPath hostname now database) table)) = None ->
      taskResult env cfg hostname now database table
      = Some (Errorf "failed to wait for mysqldump command: "
                (errorString ("exit status " +:+ Itoa code)))).
Proof.
  intros args cmd Hst Hcode.
  unfold taskResult, tableTask. unfold_calls. fold args. fold cmd.
  rewrite Hst. unfold waitError.
  destruct (Z.eqb_spec code 0) as [?|_]; [done|].
  destruct (pipe_err cmd); simpl; [split; done|].
  destruct (start_err cmd); simpl; [split; done|].
  rewrite uploadToGCS_log. unfold run.
  destruct (fst (uploadToGCS _ _ _ [])); simpl; split; done.
Qed.

Lemma nonzero_exit_fails_task_witness :
  taskResult envDumpFails sampleCfg "db1" morning "appdb" "orders"
  = Some (Errorf "failed to wait for mysqldump command: "
            (errorString "exit status 2")).
Proof.
  refine (proj2 (nonzero_exit_fails_task envDumpFails sampleCfg "db1" morning
                   "appdb" "orders" 2 _ _) _ _ _); (reflexivity || lia).
Defined.

(** ** Object keys *)

Lemma objectKey_unfold hostname now database table :
  objectKey hostname now database table
  = hostname +:+ "/" +:+ Format now +:+ "/" +:+ database +:+ "/" +:+ table
    +:+ ".sql.gz".
Proof.
  unfold objectKey, objectName, backupPath. by rewrite !append_assoc.
Qed.

Lemma Format_sameHour t1 t2 : sameHour t1 t2 -> Format t1 = Format t2.
Proof. intros (Hy & Hm & Hd & Hh). unfold Format. by rewrite Hy, Hm, Hd, Hh. Qed.

(** C5, as the code has it: the key is
    [<host>/<timestamp>/<schema>/<table>.sql.gz], the timestamp being the
    reading formatted down to the hour, so readings of the same hour give
    the same key; for one host and one timestamp, two (schema, table)
    pairs whose schema names hold no slash have the same key only when
    they are the same pair. *)
Theorem objectKey_format_and_injectivity hostname now database table :
  objectKey hostname now database table
  = hostname +:+ "/" +:+ Format now +:+ "/" +:+ database +:+ "/" +:+ table
    +:+ ".sql.gz"
  /\ (forall now', sameHour now now' ->
        objectKey hostname now' database table
        = objectKey hostname now database table)
  /\ (forall database' table',
        noSlash database = true -> noSlash database' = true ->
        objectKey hostname now database' table'
        = objectKey hostname now database table ->
        database' = database /\ table' = table).
Proof.
  split; [apply objectKey_unfold|]. split.
  - intros now' H. unfold objectKey, backupPath. by rewrite (Format_sameHour _ _ H).
  - intros database' table' Hs Hs' H. rewrite !objectKey_unfold in H.
    apply (inj (String.append hostname)) in H.
    apply (inj (String.append "/")) in H.
    apply (inj (String.append (Format now))) in H.
    apply (inj (String.append "/")) in H.
    change (database' +:+ String slash (table' +:+ ".sql.gz")
            = database +:+ String slash (table +:+ ".sql.gz")) in H.
    apply noSlash_split in H as [-> H]; [|done..].
    split; [done|]. by apply append_inj_r in H.
Qed.

Lemma objectKey_format_and_injectivity_witness :
  objectKey "db1" later "appdb" "users" = objectKey "db1" morning "appdb" "users"
  \/ ("appdb" = "appdb" /\ "users" = "users").
Proof.
  right.
  apply (proj2 (proj2 (objectKey_format_and_injectivity "db1" morning "appdb" "users")));
    reflexivity.
Defined.

(** C5, as stated, fails: a slash in a schema or table name moves the
    boundary between the two, and two distinct pairs get one key. *)
Lemma objectKey_collision :
  ~ (forall hostname now database table database' table',
       (database, table) <> (database', table') ->
       objectKey hostname now database table
       <> objectKey hostname now database' table').
Proof.
  intros H. apply (H "db1" morning "a/b" "c" "a" "b/c"); [discriminate | reflexivity].
Qed.

(** ** The exclusion list is matched exactly *)

(** C10: a scanned schema name is excluded exactly when it is equal, as a
    string, to one of the segments of [skipDBs] between commas; a segment
    that only becomes equal to the name after trimming spaces or folding
    letter case excludes nothing. *)
Theorem exclusion_is_exact_string_match :
  (forall slice value, contains slice value = true <-> In value slice)
  /\ (forall env u p h port skip output lines d,
        cmdOutput env "mysql"
          ["--user=" +:+ u; "--password=" +:+ p; "--host=" +:+ h;
           "--port=" +:+ port; "--skip-column-names"; "-e"; "SHOW DATABASES"]
        = (output, None) ->
        Scanner output = (lines, None) ->
        (In d (fst (getDatabases env u p h port skip))
         <-> In d lines /\ ~ In d (Split skip comma)))
  /\ (forall seg d, seg <> d ->
        trimSpace seg = d \/ toLower seg = toLower d ->
        contains [seg] d = false)
  /\ fst (getDatabases envOk "backup" "secret" "localhost" "3306"
            "information_schema, test,APPDB")
     = ["appdb"; "test"].
Proof.
  split; [apply contains_In|]. split; [|split].
  - intros env u p h port skip output lines d Hout Hscan.
    unfold getDatabases. rewrite Hout, Hscan. simpl.
    rewrite List.filter_In, negb_true_iff, contains_false. tauto.
  - intros seg d Hne _. apply contains_false. intros [?|[]]. done.
  - reflexivity.
Qed.

Lemma exclusion_is_exact_string_match_witness :
  contains [" test"] "test" = false /\ contains ["APPDB"] "appdb" = false.
Proof.
  split.
  - apply (proj1 (proj2 (proj2 exclusion_is_exact_string_match)) " test" "test");
      [discriminate | left; reflexivity].
  - apply (proj1 (proj2 (proj2 exclusion_is_exact_string_match)) "APPDB" "appdb");
      [discriminate | right; reflexivity].
Defined.

(** ** The dump process on the failure paths *)

(** C2 does not hold of the code: when the pipe and the start succeed and
    [uploadToGCS] returns an error, the task returns that error at once;
    the process it started is neither waited on nor killed, and when it is
    the copy that failed the stream of the process was not read to its end
    either. *)
Theorem upload_failure_leaves_process_unreaped env cfg hostname now database table e :
  let args := mysqldumpArgs (dbUser cfg) (dbPass cfg) (dbHost cfg) (dbPort cfg)
                database table in
  let cmd := cmdProcess env "mysqldump" args in
  let path := backupPath hostname now database in
  pipe_err cmd = None -> start_err cmd = None ->
  fst (run (uploadToGCS env path table)) = Some e ->
  taskResult env cfg hostname now database table
  = Some (Errorf ("failed to upload backup for table " +:+ dquote +:+ database
                  +:+ "." +:+ table +:+ dquote +:+ " to GCS: ") e)
  /\ spawned (taskCalls env cfg hostname now database table) = true
  /\ reaped (taskCalls env cfg hostname now database table) = false
  /\ (copy_err (gcsObject env (objectName path table)) <> None ->
      drained env (taskCalls env cfg hostname now database table) = false).
Proof.
  intros args cmd path Hp Hs Hup.
  unfold taskResult, taskCalls, tableTask. unfold_calls. fold args. fold cmd.
  fold path. rewrite Hp, Hs, uploadToGCS_log, Hup. simpl. split; [done|].
  unfold spawned, reaped, drained. split; [done|].
  clear Hup. unfold uploadToGCS. unfold_calls.
  destruct (gcsObject env (objectName path table))
    as [[?|] [?|] [?|] [?|] [?|]] eqn:Hsink;
    simpl; rewrite ?Hsink; simpl; split; done.
Qed.

Lemma upload_failure_leaves_process_unreaped_witness :
  spawned (taskCalls envUploadFails sampleCfg "db1" morning "appdb" "orders") = true
  /\ reaped (taskCalls envUploadFails sampleCfg "db1" morning "appdb" "orders") = false
  /\ drained envUploadFails
       (taskCalls envUploadFails sampleCfg "db1" morning "appdb" "orders") = false.
Proof.
  destruct (upload_failure_leaves_process_unreaped envUploadFails sampleCfg "db1"
              morning "appdb" "orders" _ eq_refl eq_refl eq_refl)
    as (_ & H1 & H2 & H3).
  split; [exact H1|]. split; [exact H2|]. apply H3. discriminate.
Defined.

(** ** The groups as counting semaphores *)

Section Limits.
Variable bits : Z.
#[local] Abbreviation groupInv := (groupInv bits).

Lemma SetLimit_new u g :
  SetLimit newGroup (toInt bits u) = Some g -> groupInv u g 0 /\ err g = None.
Proof.
  unfold SetLimit, groupInv, limitOf. simpl.
  destruct (toInt bits u <? 0); intros [= <-]; simpl; repeat split; lia.
Qed.

Lemma acquire_inv u g n g' :
  groupInv u g n -> acquire g = Some g' -> groupInv u g' (S n) /\ err g' = err g.
Proof.
  unfold groupInv, acquire. intros (Hsem & Hwg & Htok).
  destruct (sem g) as [cap|] eqn:E.
  - destruct Htok as [Htok Hle]. destruct (Nat.ltb_spec (tokens g) cap); [|discriminate].
    intros [= <-]; simpl. repeat split; auto; lia.
  - intros [= <-]; simpl. repeat split; auto.
Qed.

Lemma done_inv u g n r :
  groupInv u g n -> (0 < n)%nat -> groupInv u (done g r) (pred n).
Proof.
  unfold groupInv, done. intros (Hsem & Hwg & Htok) Hn. simpl.
  destruct (sem g) as [cap|]; repeat split; auto; lia.
Qed.

(** With [n] goroutines out of at most [maxInt] submitted, the flag is
    not exceeded: either the limit is the flag itself, or the flag is
    too large for an [int] and no limit is set. *)
Lemma groupInv_bound u g n :
  0 < bits -> 0 <= u < 2 ^ bits -> Z.of_nat n <= maxInt bits ->
  groupInv u g n -> Z.of_nat n <= u.
Proof.
  intros Hb Hu Hn (Hsem & _ & Htok). unfold limitOf, toInt, maxInt in *.
  assert (2 ^ bits = 2 * 2 ^ (bits - 1)) as Hpow.
  { rewrite <- Z.pow_succ_r by lia. f_equal. lia. }
  rewrite Hsem in Htok.
  destruct (Z.ltb_spec u (2 ^ (bits - 1))).
  - destruct (Z.ltb_spec u 0); [lia|]. destruct Htok. lia.
  - destruct (Z.ltb_spec (u - 2 ^ bits) 0); lia.
Qed.
End Limits.

(** ** Invariants of a run *)

Section RunFacts.
Variable env : Env.
Variable cfg : Config.
Variable hostname : string.
Variable databases : list string.

#[local] Abbreviation step := (step env cfg hostname databases).
#[local] Abbreviation exec := (exec env cfg hostname databases).
#[local] Abbreviation tablesOf := (tablesOf env cfg).
#[local] Abbreviation bits := (intSize cfg).
#[local] Abbreviation jobInv := (jobInv env cfg).
#[local] Abbreviation stateInv := (stateInv env cfg databases).

Lemma exec_prelude h s : exec h s -> prelude env cfg = inr (hostname, databases).
Proof. induction 1; auto. Qed.

Lemma size_pos {A} (m : gmap nat A) i x : m !! i = Some x -> (0 < size m)%nat.
Proof.
  intros H. assert (size m <> 0%nat); [|lia].
  apply (map_size_ne_0_lookup_2 m i). eauto.
Qed.

Lemma endJob_inv s i j r :
  stateInv s -> m_jobs s !! i = Some j -> stateInv (endJob s i r).
Proof.
  intros (Hg & Hsz & Hnext & Hfresh & Hjobs) Hi. unfold stateInv, endJob; simpl.
  rewrite map_size_delete_Some by eauto.
  split; [eapply done_inv; eauto using size_pos|].
  split; [lia|]. split; [done|]. split.
  - intros i' Hi'. rewrite lookup_delete. case_decide; auto.
  - intros i' j'. rewrite lookup_delete. case_decide; [done|]. apply Hjobs.
Qed.

Lemma setJob_inv s i j j' :
  stateInv s -> m_jobs s !! i = Some j -> jobInv j' -> stateInv (setJob s i j').
Proof.
  intros (Hg & Hsz & Hnext & Hfresh & Hjobs) Hi Hj'. unfold stateInv, setJob; simpl.
  rewrite map_size_insert_Some by eauto.
  split; [done|]. split; [done|]. split; [done|]. split.
  - intros i' Hi'. rewrite lookup_insert. case_decide; [subst|by auto].
    rewrite Hfresh in Hi by done. discriminate.
  - intros i' j''. rewrite lookup_insert. case_decide; [by intros [= <-]|]. apply Hjobs.
Qed.

Lemma step_inv s ev s' : stateInv s -> step s ev s' -> stateInv s'.
Proof.
  intros Hinv Hstep. destruct Hstep.
  - (* dbGroup.Go *)
    destruct Hinv as (Hg & Hsz & Hnext & Hfresh & Hjobs).
    destruct (acquire_inv _ _ _ _ _ Hg H1) as [Hg' _].
    unfold stateInv; simpl.
    rewrite map_size_insert_None by (apply Hfresh; lia).
    split; [done|]. split; [lia|].
    split; [apply lookup_lt_Some in H0; lia|]. split.
    + intros i Hi. rewrite lookup_insert. case_decide; [lia|]. apply Hfresh. lia.
    + intros i j. rewrite lookup_insert. case_decide; [by intros [= <-]|]. apply Hjobs.
  - (* getTables fails *)
    eapply endJob_inv; eauto.
  - (* getTables succeeds *)
    eapply setJob_inv; eauto. simpl.
    destruct (SetLimit_new _ _ _ H1) as [Hg _].
    rewrite map_size_empty. split; [done|]. split; [done|].
    split; [lia|]. split; [lia|]. intros j _. apply lookup_empty.
  - (* tableGroup.Go *)
    pose proof Hinv as (_ & _ & _ & _ & Hjobs).
    specialize (Hjobs _ _ H) as (Ht & Hg & Hsz & Hk & Hfresh).
    eapply setJob_inv; eauto. simpl.
    destruct (acquire_inv _ _ _ _ _ Hg H1) as [Hg' _].
    rewrite map_size_insert_None by (apply Hfresh; lia).
    split; [done|]. split; [done|]. split; [lia|].
    split; [apply lookup_lt_Some in H0; lia|].
    intros j Hj. rewrite lookup_insert. case_decide; [lia|]. apply Hfresh. lia.
  - (* a table task returns *)
    pose proof Hinv as (_ & _ & _ & _ & Hjobs).
    specialize (Hjobs _ _ H) as (Ht & Hg & Hsz & Hk & Hfresh).
    eapply setJob_inv; eauto. simpl.
    rewrite map_size_delete_Some by eauto.
    split; [done|]. split; [eapply done_inv; eauto using size_pos|].
    split; [lia|]. split; [done|].
    intros j' Hj'. rewrite lookup_delete. case_decide; auto.
  - (* tableGroup.Wait *)
    eapply endJob_inv; eauto.
  - (* dbGroup.Wait *)
    exact Hinv.
Qed.

Lemma exec_inv h s : exec h s -> stateInv s.
Proof.
  induction 1 as [g Hp Hg|h s ev s' _ IH Hstep]; [|eauto using step_inv].
  destruct (SetLimit_new _ _ _ Hg) as [Hg' _].
  unfold stateInv; simpl. rewrite map_size_empty.
  split; [done|]. split; [lia|]. split; [lia|].
  split; [intros; apply lookup_empty|]. intros i j. by rewrite lookup_empty.
Qed.

(** C8: at every moment of a run the number of running jobs is at most
    [dbLimit] and, in every job, the number of running table tasks is at
    most [tableLimit], whatever the other jobs do; the flags are any
    [uint] values and the slices [main] ranges over have a length that
    is an [int]. *)
Theorem running_goroutines_within_limits h s :
  0 < bits ->
  0 <= dbLimit cfg < 2 ^ bits ->
  0 <= tableLimit cfg < 2 ^ bits ->
  Z.of_nat (length databases) <= maxInt bits ->
  (forall database, Z.of_nat (length (fst (tablesOf database))) <= maxInt bits) ->
  exec h s ->
  Z.of_nat (size (m_jobs s)) <= dbLimit cfg
  /\ (forall i database tables k g tasks,
        m_jobs s !! i = Some (JobLoop database tables k g tasks) ->
        Z.of_nat (size tasks) <= tableLimit cfg).
Proof.
  intros Hb Hdb Htb Hlen Htabs Hexec.
  destruct (exec_inv _ _ Hexec) as (Hg & Hsz & Hnext & _ & Hjobs). split.
  - eapply groupInv_bound; eauto. lia.
  - intros i database tables k g tasks Hi.
    destruct (Hjobs _ _ Hi) as (-> & Hg' & Hsz' & Hk & _).
    eapply groupInv_bound; eauto. specialize (Htabs database). lia.
Qed.
End RunFacts.

(** ** Replay is sound *)

Section ReplayFacts.
Variable env : Env.
Variable cfg : Config.
Variable hostname : string.
Variable databases : list string.

#[local] Abbreviation step := (step env cfg hostname databases).
#[local] Abbreviation exec := (exec env cfg hostname databases).
#[local] Abbreviation stepf := (stepf env cfg hostname databases).
#[local] Abbreviation replay := (replay env cfg hostname databases).

Lemma stepf_sound s ev s' : stepf s ev = Some s' -> step s ev s'.
Proof.
  destruct ev as [i database|i tables|i k table now|i j r|i r|r]; simpl.
  - destruct (m_exit s) eqn:Hex; [discriminate|].
    destruct (acquire (m_group s)) eqn:Hacq; [|discriminate].
    case_decide as Hd; [|discriminate]. destruct Hd as [-> Hdb].
    intros [= <-]. rewrite <- Hex. by constructor.
  - destruct (m_jobs s !! i) as [[database|]|] eqn:Hi; try discriminate.
    destruct (snd (tablesOf env cfg database)) eqn:Herr; [discriminate|].
    destruct (SetLimit _ _) eqn:Hset; [|discriminate].
    case_decide as Hd; [|discriminate]. subst tables.
    intros [= <-]. by econstructor.
  - destruct (m_jobs s !! i) as [[|database tables k' g tasks]|] eqn:Hi;
      try discriminate.
    destruct (acquire g) eqn:Hacq; [|discriminate].
    case_decide as Hd; [|discriminate]. destruct Hd as [-> Htab].
    intros [= <-]. by econstructor.
  - destruct (m_jobs s !! i) as [[|database tables k g tasks]|] eqn:Hi;
      try discriminate.
    destruct (tasks !! j) as [task|] eqn:Hj; [|discriminate].
    case_decide as Hd; [|discriminate]. intros [= <-]. rewrite <- Hd.
    by econstructor.
  - destruct (m_jobs s !! i) as [[database|database tables k g tasks]|] eqn:Hi;
      try discriminate.
    + destruct (snd (tablesOf env cfg database)) eqn:Herr; [|discriminate].
      case_decide as Hd; [|discriminate]. intros [= <-]. rewrite <- Hd.
      by econstructor.
    + destruct (Wait g) eqn:Hw; [|discriminate].
      case_decide as Hd; [|discriminate]. destruct Hd as [Hk ->].
      intros [= <-]. by econstructor.
  - destruct (m_exit s) eqn:Hex; [discriminate|].
    destruct (Wait (m_group s)) eqn:Hw; [|discriminate].
    case_decide as Hd; [|discriminate]. destruct Hd as [Hn ->].
    intros [= <-]. by constructor.
Qed.

Lemma replay_exec h s : replay h = Some s -> exec h s.
Proof.
  revert s. induction h as [|ev h IH]; simpl; intros s.
  - unfold initState. destruct (SetLimit _ _) eqn:Hset; [|discriminate].
    case_decide; [|discriminate]. intros [= <-]. by constructor.
  - destruct (replay h) as [s0|]; [|discriminate].
    intros Hs. eapply exec_step; [by apply IH|by apply stepf_sound].
Qed.

End ReplayFacts.

(** ** What the history records *)

Lemma jobFailure_end i r : jobFailure (EvJobEnd i r) = r.
Proof. by destruct r. Qed.

Lemma taskFailure_end i j r : taskFailure i (EvTaskEnd i j r) = r.
Proof. destruct r; simpl; [|done]. by rewrite decide_True. Qed.

Lemma started_quiet i ev h : quietFor i ev -> started i (ev :: h) = started i h.
Proof. destruct ev; simpl; try done. intros. by rewrite decide_False. Qed.

Lemma firstTaskErr_quiet i ev h :
  quietFor i ev -> firstTaskErr i (ev :: h) = firstTaskErr i h.
Proof.
  destruct ev as [| | |i' j [e|]| |]; simpl; intros Hq;
    destruct (firstTaskErr i h); try done.
  by rewrite decide_False.
Qed.

Lemma firstJobErr_quiet ev h :
  jobFailure ev = None -> firstJobErr (ev :: h) = firstJobErr h.
Proof. simpl. intros ->. by destruct (firstJobErr h). Qed.

Lemma done_err g r :
  err (done g r) = match err g with Some e => Some e | None => r end.
Proof. reflexivity. Qed.

Lemma Wait_Some g r : Wait g = Some r -> wg g = 0%nat /\ r = err g.
Proof.
  unfold Wait. destruct (Nat.eqb_spec (wg g) 0); [|discriminate].
  by intros [= <-].
Qed.

Section RunHistory.
Variable env : Env.
Variable cfg : Config.
Variable hostname : string.
Variable databases : list string.

#[local] Abbreviation step := (step env cfg hostname databases).
#[local] Abbreviation exec := (exec env cfg hostname databases).
#[local] Abbreviation tablesOf := (tablesOf env cfg).
#[local] Abbreviation jobHist := (jobHist env cfg databases).
#[local] Abbreviation histInv := (histInv env cfg databases).
#[local] Abbreviation stateInv := (stateInv env cfg databases).

Lemma jobHist_quiet ev h i j :
  quietFor i ev -> jobHist h i j -> jobHist (ev :: h) i j.
Proof.
  intros Hq. unfold jobHist.
  destruct j as [database|database tables k g tasks];
    rewrite started_quiet, firstTaskErr_quiet by done.
  - done.
  - intros (? & ? & ? & ? & Hin). repeat split; auto.
    intros j task Hj. right. eauto.
Qed.

(** The parts of the invariant that concern the other jobs are kept by
    an event of job [i0] that leaves [m_next] as it is. *)
Lemma histInv_frame h s ev i0 j0 s' :
  stateInv s -> histInv h s ->
  m_jobs s !! i0 = Some j0 ->
  (forall i, i <> i0 -> quietFor i ev) ->
  m_next s' = m_next s ->
  (forall i, i <> i0 -> m_jobs s' !! i = m_jobs s !! i) ->
  (forall i, (m_next s' <= i)%nat -> started i (ev :: h) = 0%nat /\
                                     firstTaskErr i (ev :: h) = None)
  /\ (forall i j, i <> i0 -> m_jobs s' !! i = Some j -> jobHist (ev :: h) i j)
  /\ (forall i database, i <> i0 ->
        (i < m_next s')%nat -> m_jobs s' !! i = None ->
        databases !! i = Some database ->
        snd (tablesOf database) = None ->
        started i (ev :: h) = length (fst (tablesOf database))).
Proof.
  intros (_ & _ & _ & Hfresh & _) (_ & Hb & Hc & Hd & _) Hi0 Hq Hn Hother.
  assert (forall i, (m_next s <= i)%nat -> i <> i0) as Hne.
  { intros i Hi ->. rewrite Hfresh in Hi0 by done. discriminate. }
  split; [|split].
  - intros i Hi. rewrite Hn in Hi.
    rewrite started_quiet, firstTaskErr_quiet by auto. auto.
  - intros i j Hi Hj. rewrite Hother in Hj by done.
    apply jobHist_quiet; auto.
  - intros i database Hi Hlt Hnone. rewrite Hn in Hlt. rewrite Hother in Hnone by done.
    rewrite started_quiet by auto. auto.
Qed.

Lemma exited_no_job s h r i j :
  histInv h s -> m_exit s = Some r -> m_jobs s !! i = Some j -> False.
Proof.
  intros (_ & _ & _ & _ & He) Hex Hi. destruct (He _ Hex) as (_ & _ & Hempty).
  rewrite Hempty, lookup_empty in Hi. discriminate.
Qed.

Lemma acquire_err g g' : acquire g = Some g' -> err g' = err g.
Proof.
  unfold acquire. destruct (sem g) as [cap|]; [destruct (_ <? _)%nat|];
    intros [= <-]; reflexivity.
Qed.

Lemma endJob_err h s i r :
  err (m_group s) = firstJobErr h ->
  err (m_group (endJob s i r)) = firstJobErr (EvJobEnd i r :: h).
Proof.
  intros Ha. unfold endJob. cbn [m_group firstJobErr].
  rewrite done_err, Ha, jobFailure_end. reflexivity.
Qed.

Lemma firstTaskErr_end i j r h :
  firstTaskErr i (EvTaskEnd i j r :: h)
  = match firstTaskErr i h with Some e => Some e | None => r end.
Proof. cbn [firstTaskErr]. by rewrite taskFailure_end. Qed.

Lemma hist_step h s ev s' :
  stateInv s -> histInv h s -> step s ev s' -> histInv (ev :: h) s'.
Proof.
  intros Hst Hh Hstep.
  pose proof Hh as (Ha & Hb & Hc & Hd & He).
  destruct Hstep as [s database g Hex Hdb Hacq
                    |s i database e r Hi Herr Hr
                    |s i database g Hi Hok Hset
                    |s i database tables k g tasks table g' now Hi Htab Hacq
                    |s i database tables k g tasks j task r Hi Hj Hr
                    |s i database tables k g tasks r Hi Hk Hwait
                    |s r Hex Hnext Hwait].
  - (* dbGroup.Go *)
    unfold histInv; cbn [m_next m_group m_jobs m_exit].
    split. { rewrite firstJobErr_quiet by done. rewrite <- Ha. by apply acquire_err. }
    split. { intros i Hi. rewrite started_quiet, firstTaskErr_quiet by done.
             apply Hb. lia. }
    split.
    { intros i j. rewrite lookup_insert. case_decide as Heq.
      - subst i. intros [= <-]. unfold jobHist.
        rewrite started_quiet, firstTaskErr_quiet by done.
        destruct (Hb (m_next s)) as [? ?]; [lia|]. done.
      - intros Hj. apply jobHist_quiet; [done|]. by apply Hc. }
    split.
    { intros i db Hlt. rewrite lookup_insert. case_decide; [done|].
      intros Hnone Hdb' Hok. rewrite started_quiet by done. apply Hd; auto. lia. }
    intros r. rewrite Hex. done.
  - (* getTables fails *)
    destruct (histInv_frame h s (EvJobEnd i r) i _ (endJob s i r) Hst Hh Hi)
      as (Hb' & Hc' & Hd');
      [done | reflexivity | by intros; simpl; rewrite lookup_delete_ne |].
    unfold histInv.
    split; [by apply endJob_err|]. split; [exact Hb'|].
    split.
    { intros i' j'. destruct (decide (i' = i)) as [->|]; [|by apply Hc'].
      cbn [endJob m_jobs]. by rewrite lookup_delete_eq. }
    split.
    { intros i' db Hlt Hnone Hdb' Hok'.
      destruct (decide (i' = i)) as [->|]; [|by apply Hd'].
      destruct (Hc _ _ Hi) as (Hdbi & _). rewrite Hdbi in Hdb'.
      injection Hdb' as <-. congruence. }
    intros r' Hex. destruct (exited_no_job _ _ _ _ _ Hh Hex Hi).
  - (* getTables succeeds *)
    destruct (histInv_frame h s (EvTables i (fst (tablesOf database))) i _
                (setJob s i (JobLoop database (fst (tablesOf database)) 0 g ∅))
                Hst Hh Hi)
      as (Hb' & Hc' & Hd');
      [done | reflexivity | by intros; simpl; rewrite lookup_insert_ne |].
    unfold histInv.
    split. { cbn [setJob m_group]. by rewrite firstJobErr_quiet. }
    split; [exact Hb'|].
    split.
    { intros i' j'. destruct (decide (i' = i)) as [->|]; [|by apply Hc'].
      cbn [setJob m_jobs]. rewrite lookup_insert_eq. intros [= <-].
      destruct (Hc _ _ Hi) as (Hdbi & Hs0 & Hf0).
      destruct (SetLimit_new _ _ _ Hset) as [_ Hg].
      unfold jobHist. rewrite started_quiet, firstTaskErr_quiet by done.
      repeat split; auto; [congruence|]. intros j task. by rewrite lookup_empty. }
    split.
    { intros i' db Hlt Hnone. destruct (decide (i' = i)) as [->|]; [|by apply Hd'].
      simpl in Hnone. by rewrite lookup_insert_eq in Hnone. }
    intros r' Hex. destruct (exited_no_job _ _ _ _ _ Hh Hex Hi).
  - (* tableGroup.Go *)
    destruct (histInv_frame h s (EvTaskStart i k table now) i _
                (setJob s i (JobLoop database tables (S k) g'
                               (<[k := mkTask table now]> tasks)))
                Hst Hh Hi)
      as (Hb' & Hc' & Hd');
      [by intros; simpl | reflexivity | by intros; simpl; rewrite lookup_insert_ne |].
    unfold histInv.
    split. { cbn [setJob m_group]. by rewrite firstJobErr_quiet. }
    split; [exact Hb'|].
    split.
    { intros i' j'. destruct (decide (i' = i)) as [->|]; [|by apply Hc'].
      cbn [setJob m_jobs]. rewrite lookup_insert_eq. intros [= <-].
      destruct (Hc _ _ Hi) as (Hdbi & Hok & Hstart & Herrg & Hin).
      unfold jobHist. repeat split; auto.
      - simpl. rewrite decide_True by done. by f_equal.
      - rewrite (acquire_err _ _ Hacq), Herrg. simpl.
        by destruct (firstTaskErr i h).
      - intros j task. rewrite lookup_insert. case_decide as Heq.
        + subst j. intros [= <-]. by left.
        + intros Hj. right. by apply Hin. }
    split.
    { intros i' db Hlt Hnone. destruct (decide (i' = i)) as [->|]; [|by apply Hd'].
      simpl in Hnone. by rewrite lookup_insert_eq in Hnone. }
    intros r' Hex. destruct (exited_no_job _ _ _ _ _ Hh Hex Hi).
  - (* a table task returns *)
    destruct (histInv_frame h s (EvTaskEnd i j r) i _
                (setJob s i (JobLoop database tables k (done g r) (delete j tasks)))
                Hst Hh Hi)
      as (Hb' & Hc' & Hd');
      [by intros; simpl | reflexivity | by intros; simpl; rewrite lookup_insert_ne |].
    unfold histInv.
    split. { cbn [setJob m_group]. by rewrite firstJobErr_quiet. }
    split; [exact Hb'|].
    split.
    { intros i' j'. destruct (decide (i' = i)) as [->|]; [|by apply Hc'].
      cbn [setJob m_jobs]. rewrite lookup_insert_eq. intros [= <-].
      destruct (Hc _ _ Hi) as (Hdbi & Hok & Hstart & Herrg & Hin).
      unfold jobHist. repeat split; auto.
      - rewrite firstTaskErr_end, done_err, Herrg. reflexivity.
      - intros j' task'. rewrite lookup_delete. case_decide; [done|].
        intros Hj'. right. by apply Hin. }
    split.
    { intros i' db Hlt Hnone. destruct (decide (i' = i)) as [->|]; [|by apply Hd'].
      simpl in Hnone. by rewrite lookup_insert_eq in Hnone. }
    intros r' Hex. destruct (exited_no_job _ _ _ _ _ Hh Hex Hi).
  - (* tableGroup.Wait *)
    destruct (histInv_frame h s (EvJobEnd i r) i _ (endJob s i r) Hst Hh Hi)
      as (Hb' & Hc' & Hd');
      [done | reflexivity | by intros; simpl; rewrite lookup_delete_ne |].
    unfold histInv.
    split; [by apply endJob_err|]. split; [exact Hb'|].
    split.
    { intros i' j'. destruct (decide (i' = i)) as [->|]; [|by apply Hc'].
      cbn [endJob m_jobs]. by rewrite lookup_delete_eq. }
    split.
    { intros i' db Hlt Hnone Hdb' Hok'.
      destruct (decide (i' = i)) as [->|]; [|by apply Hd'].
      destruct (Hc _ _ Hi) as (Hdbi & Hok & Hstart & _). rewrite Hdbi in Hdb'.
      injection Hdb' as <-. rewrite started_quiet by done.
      destruct Hst as (_ & _ & _ & _ & Hjobs).
      destruct (Hjobs _ _ Hi) as (<- & _). congruence. }
    intros r' Hex. destruct (exited_no_job _ _ _ _ _ Hh Hex Hi).
  - (* dbGroup.Wait *)
    destruct (Wait_Some _ _ Hwait) as [Hwg ->].
    unfold histInv; cbn [m_next m_group m_jobs m_exit].
    rewrite firstJobErr_quiet by done.
    split; [done|].
    split. { intros i Hi. rewrite started_quiet, firstTaskErr_quiet by done.
             by apply Hb. }
    split. { intros i j Hj. apply jobHist_quiet; [done|]. by apply Hc. }
    split. { intros i db Hlt Hnone Hdb' Hok. rewrite started_quiet by done.
             by apply Hd. }
    intros r' [= <-]. split; [done|]. split; [done|].
    destruct Hst as ((_ & Hsize & _) & _).
    apply map_size_empty_inv. congruence.
Qed.

Lemma exec_hist h s : exec h s -> histInv h s.
Proof.
  induction 1 as [g Hp Hg|h s ev s' Hexec IH Hstep].
  - destruct (SetLimit_new _ _ _ Hg) as [_ Herr].
    unfold histInv; simpl. split; [done|]. split; [done|].
    split; [intros i j; by rewrite lookup_empty|]. split; [intros; lia|]. done.
  - eapply hist_step; eauto. by eapply exec_inv.
Qed.

End RunHistory.

(** ** Jobs and the exclusion list *)

Lemma exec_job_start env cfg hostname databases h s i d :
  exec env cfg hostname databases h s ->
  In (EvJobStart i d) h -> databases !! i = Some d.
Proof.
  induction 1 as [|h s ev s' Hexec IH Hstep]; [intros []|].
  intros [Hev|Hin]; [|by apply IH].
  destruct Hstep; try discriminate. by injection Hev as <- <-.
Qed.

(** C7: whatever the exclusion string is, a schema that is one of its
    comma-separated segments is not in the list [getDatabases] returns,
    and no run starts a job for it; with the default string this holds of
    [information_schema], [performance_schema] and [test]. *)
Theorem excluded_schema_never_backed_up env cfg hostname databases d :
  In d (Split (skipDBs cfg) comma)
  \/ (skipDBs cfg = defaultSkipDBs
      /\ In d ["information_schema"; "performance_schema"; "test"]) ->
  ~ In d (fst (getDatabases env (dbUser cfg) (dbPass cfg) (dbHost cfg)
                 (dbPort cfg) (skipDBs cfg)))
  /\ (forall h s, exec env cfg hostname databases h s ->
        ~ In d databases /\ forall i, ~ In (EvJobStart i d) h).
Proof.
  intros Hd.
  assert (In d (Split (skipDBs cfg) comma)) as Hskip.
  { destruct Hd as [?|[-> ?]]; done. }
  clear Hd.
  assert (~ In d (fst (getDatabases env (dbUser cfg) (dbPass cfg) (dbHost cfg)
                         (dbPort cfg) (skipDBs cfg)))) as Hnot.
  { intros Hin. by apply getDatabases_In in Hin. }
  split; [done|]. intros h s Hexec.
  pose proof (prelude_databases _ _ _ _ (exec_prelude _ _ _ _ _ _ Hexec)) as Hdbs.
  rewrite Hdbs in Hnot. simpl in Hnot. split; [done|].
  intros i Hin. apply Hnot.
  apply (exec_job_start _ _ _ _ _ _ _ _ Hexec) in Hin.
  apply list_elem_of_In. by eapply list_elem_of_lookup_2.
Qed.

Lemma excluded_schema_never_backed_up_witness :
  ~ In "test" (fst (getDatabases envOk "backup" "secret" "localhost" "3306"
                      defaultSkipDBs)).
Proof.
  apply (excluded_schema_never_backed_up envOk sampleCfg "db1" ["appdb"] "test").
  left. vm_compute. tauto.
Defined.

(** ** Failures in a run *)

Lemma sample_exec n s :
  replay envDumpFails sampleCfg "db1" ["appdb"] (drop n sampleHistory) = Some s ->
  exec envDumpFails sampleCfg "db1" ["appdb"] (drop n sampleHistory) s.
Proof. apply replay_exec. Qed.

Lemma sample_tables_length env database :
  cmdOutput env = sampleOutput ->
  (length (fst (tablesOf env sampleCfg database)) <= 3)%nat.
Proof.
  intros Hout. unfold tablesOf, getTables. rewrite Hout. unfold sampleOutput.
  repeat destruct (String.eqb _ _); vm_compute; lia.
Qed.

Lemma running_goroutines_within_limits_witness :
  exists s,
    replay envDumpFails sampleCfg "db1" ["appdb"] (drop 4 sampleHistory) = Some s
    /\ Z.of_nat (size (m_jobs s)) <= 2.
Proof.
  eexists. split; [vm_compute; reflexivity|].
  refine (proj1 (running_goroutines_within_limits envDumpFails sampleCfg "db1"
                   ["appdb"] (drop 4 sampleHistory) _ _ _ _ _ _ _)).
  - reflexivity.
  - split; [discriminate | reflexivity].
  - split; [discriminate | reflexivity].
  - discriminate.
  - intros database.
    pose proof (sample_tables_length envDumpFails database eq_refl).
    unfold maxInt. simpl intSize. lia.
  - apply (sample_exec 4). vm_compute. reflexivity.
Defined.

(** C1, as the code has it: nothing is cancelled.  A job returns the
    error of the first of its table tasks that failed, unchanged (or the
    wrapped error of [getTables]), the run reports the error of the first
    job that failed, and when the run reports, every table of every
    database whose tables could be listed has been started, failures or
    not. *)
Theorem first_failure_reported_without_cancellation env cfg hostname databases h s :
  exec env cfg hostname databases h s ->
  (forall i r s',
     step env cfg hostname databases s (EvJobEnd i r) s' ->
     exists database,
       databases !! i = Some database /\
       r = match snd (tablesOf env cfg database) with
           | Some e =>
               Some (Errorf ("failed to retrieve list of tables for database "
                             +:+ database +:+ ": ") e)
           | None => firstTaskErr i h
           end)
  /\ (forall r s',
        step env cfg hostname databases s (EvExit r) s' -> r = firstJobErr h)
  /\ (forall r,
        m_exit s = Some r ->
        r = firstJobErr h /\
        forall i database,
          databases !! i = Some database ->
          snd (tablesOf env cfg database) = None ->
          started i h = length (fst (tablesOf env cfg database))).
Proof.
  intros Hexec.
  destruct (exec_hist _ _ _ _ _ _ Hexec) as (Ha & Hb & Hc & Hd & He).
  split; [|split].
  - intros i r s' Hstep.
    inversion Hstep
      as [|s0 i0 database e r0 Hi Herr Hr| | |
          |s0 i0 database tables k g tasks r0 Hi Hk Hwait|]; subst.
    + destruct (Hc _ _ Hi) as (Hdb & _). exists database. split; [done|].
      by rewrite Herr.
    + destruct (Hc _ _ Hi) as (Hdb & Hok & _ & Herr & _).
      exists database. split; [done|]. rewrite Hok.
      destruct (Wait_Some _ _ Hwait) as [_ ->]. done.
  - intros r s' Hstep.
    inversion Hstep as [| | | | | |s0 r0 Hex Hnext Hwait]; subst.
    destruct (Wait_Some _ _ Hwait) as [_ ->]. done.
  - intros r Hex. destruct (He _ Hex) as (-> & Hnext & Hempty).
    split; [done|]. intros i database Hdb Hok.
    apply Hd; auto.
    + rewrite Hnext. by eapply lookup_lt_Some.
    + by rewrite Hempty, lookup_empty.
Qed.

Lemma first_failure_reported_without_cancellation_witness :
  Some failedOrders = firstJobErr sampleHistory
  /\ started 0 sampleHistory
     = length (fst (tablesOf envDumpFails sampleCfg "appdb")).
Proof.
  pose proof (first_failure_reported_without_cancellation
                envDumpFails sampleCfg "db1" ["appdb"] sampleHistory _
                (sample_exec 0 _ eq_refl)) as (_ & _ & H).
  destruct (H (Some failedOrders) eq_refl) as [H1 H2].
  split; [exact H1|]. apply H2; reflexivity.
Defined.

(** C1, as stated, fails: in the sample run the task of [users] is
    started after the failure of [orders] has been recorded in the group
    of the job. *)
Lemma task_started_after_failure :
  ~ cancelsAfterFailure envDumpFails sampleCfg "db1" ["appdb"].
Proof.
  intros H.
  eapply (H (drop 4 sampleHistory) _ 0%nat _ _ _ _ _ "users" later).
  - apply (sample_exec 4). vm_compute. reflexivity.
  - vm_compute. reflexivity.
  - discriminate.
  - apply stepf_sound. vm_compute. reflexivity.
Qed.

(** ** The timestamp of the object keys *)

Lemma uploadCalls_object env path table c o :
  In c (snd (run (uploadToGCS env path table))) ->
  callObject c = Some o -> o = objectName path table.
Proof.
  unfold uploadToGCS. unfold_calls.
  destruct (gcsObject env (objectName path table)) as [[?|] [?|] [?|] [?|] [?|]];
    simpl; intros H; repeat (destruct H as [<-|H]; [by intros [= <-]|]);
    destruct H.
Qed.

Lemma taskCalls_object env cfg hostname now database table c o :
  In c (taskCalls env cfg hostname now database table) ->
  callObject c = Some o -> o = objectKey hostname now database table.
Proof.
  unfold taskCalls, tableTask. unfold_calls.
  destruct (pipe_err _); simpl; [by intros [<-|[]]|].
  destruct (start_err _); simpl; [by intros [<-|[<-|[]]]|].
  rewrite uploadToGCS_log.
  destruct (fst (run (uploadToGCS _ _ _))); simpl.
  - intros [<-|[<-|H]] Ho; try done. exact (uploadCalls_object _ _ _ _ _ H Ho).
  - destruct (waitError _); simpl; rewrite in_app_iff;
      (intros [<-|[<-|[H|[<-|[]]]]] Ho; try done;
       exact (uploadCalls_object _ _ _ _ _ H Ho)).
Qed.

(** C3, as the code has it: no timestamp is taken before the jobs are
    scheduled.  A table task can start with any reading of the clock;
    each running task was started with its own reading, and every object
    it names is the key derived from that reading; two tasks whose
    readings fall in the same hour format the same timestamp. *)
Theorem timestamp_is_read_by_each_task env cfg hostname databases h s :
  exec env cfg hostname databases h s ->
  (forall i database tables k g tasks table now,
     m_jobs s !! i = Some (JobLoop database tables k g tasks) ->
     tables !! k = Some table -> acquire g <> None ->
     exists s', step env cfg hostname databases s (EvTaskStart i k table now) s')
  /\ (forall i database tables k g tasks j task,
        m_jobs s !! i = Some (JobLoop database tables k g tasks) ->
        tasks !! j = Some task ->
        In (EvTaskStart i j (t_table task) (t_now task)) h
        /\ forall c o,
             In c (taskCalls env cfg hostname (t_now task) database (t_table task)) ->
             callObject c = Some o ->
             o = objectKey hostname (t_now task) database (t_table task))
  /\ (forall i k table now i' k' table' now',
        In (EvTaskStart i k table now) h ->
        In (EvTaskStart i' k' table' now') h ->
        sameHour now now' -> Format now = Format now').
Proof.
  intros Hexec.
  destruct (exec_hist _ _ _ _ _ _ Hexec) as (_ & _ & Hc & _).
  split; [|split].
  - intros i database tables k g tasks table now Hi Htab Hacq.
    destruct (acquire g) as [g'|] eqn:Hg; [|done].
    eexists. by eapply step_table_go.
  - intros i database tables k g tasks j task Hi Hj.
    destruct (Hc _ _ Hi) as (_ & _ & _ & _ & Hin).
    split; [by apply Hin|]. intros c o. apply taskCalls_object.
  - intros. by apply Format_sameHour.
Qed.

Lemma timestamp_is_read_by_each_task_witness :
  In (EvTaskStart 0 1 "users" later) (drop 3 sampleHistory).
Proof.
  pose proof (timestamp_is_read_by_each_task
                envDumpFails sampleCfg "db1" ["appdb"] (drop 3 sampleHistory) _
                (sample_exec 3 _ eq_refl)) as (_ & H & _).
  refine (proj1 (H 0%nat "appdb" _ _ _ _ 1%nat (mkTask "users" later) eq_refl eq_refl)).
Defined.

(** C3, as stated, fails: in the sample run the tasks of [orders] and
    [users] read the clock on either side of ten o'clock and format two
    different timestamps. *)
Lemma timestamps_differ_within_run :
  ~ sharedTimestamp envDumpFails sampleCfg "db1" ["appdb"].
Proof.
  intros H.
  specialize (H sampleHistory _ 0%nat 0%nat "orders" morning 0%nat 1%nat "users" later
                (sample_exec 0 _ eq_refl)).
  discriminate H; unfold sampleHistory; simpl; auto 10.
Qed.

(** ** The reported error *)

(** C9 does not hold of the code: in the sample run the dump of
    [appdb.orders] exits with status 2 and the run reports
    [Database backup failed: failed to wait for mysqldump command: exit
    status 2], which names neither the schema nor the table; the error of
    a failed upload of the same table names both. *)
Theorem wait_failure_report_omits_table :
  ~ reportNamesTable envDumpFails sampleCfg "db1" ["appdb"]
  /\ fatalBackupMessage failedOrders
     = "Database backup failed: failed to wait for mysqldump command: exit status 2"
  /\ (exists e,
        taskResult envUploadFails sampleCfg "db1" morning "appdb" "orders" = Some e
        /\ Contains (fatalBackupMessage e) "appdb" = true
        /\ Contains (fatalBackupMessage e) "orders" = true).
Proof.
  split; [|split; [reflexivity|eexists; split; [reflexivity|split; reflexivity]]].
  intros H.
  destruct (H sampleHistory _ 0%nat 0%nat failedOrders "appdb" "orders" morning
              (sample_exec 0 _ eq_refl)) as [H1 _];
    [unfold sampleHistory; simpl; auto 10..|].
  discriminate H1.
Qed.

(** * Further properties *)

(** ** [strings.Split] *)

Lemma Split_cons s sep : exists h t, Split s sep = h :: t.
Proof.
  induction s as [|c s IH]; simpl; [by eauto|].
  destruct (Ascii.eqb c sep); [by eauto|]. destruct IH as (h & t & ->). eauto.
Qed.

Lemma Join_cons x h t sep : Join (x :: h :: t) sep = x +:+ sep +:+ Join (h :: t) sep.
Proof. reflexivity. Qed.

(** Splitting loses nothing: joining the segments with the separator
    gives the string back, no segment holds the separator, and there is
    one more segment than there are separators, so never none. *)
Theorem Split_Join s sep :
  Join (Split s sep) (String sep "") = s
  /\ Forall (fun seg => hasByte sep seg = false) (Split s sep)
  /\ length (Split s sep) = S (countByte sep s).
Proof.
  induction s as [|c s (IHj & IHf & IHl)]; [by repeat constructor|].
  cbn [Split countByte]. destruct (Split_cons s sep) as (h & t & Hs).
  rewrite Hs in *. destruct (Ascii.eqb_spec c sep) as [->|Hne].
  - rewrite Join_cons, IHj. split; [done|]. split; [by constructor|].
    simpl in *. lia.
  - split; [|split].
    + destruct t as [|h' t]; [by simpl in *; subst|].
      rewrite Join_cons in *. by rewrite append_cons, IHj.
    + inversion IHf as [|? ? Hh Ht]; subst. constructor; [|done].
      simpl. rewrite Hh. by destruct (Ascii.eqb_spec c sep).
    + simpl in *. lia.
Qed.

(** The segments of a joined list are the list, when the list is not
    empty and no element holds the separator. *)
Theorem Split_of_Join elems sep :
  elems <> [] ->
  Forall (fun seg => hasByte sep seg = false) elems ->
  Split (Join elems (String sep "")) sep = elems.
Proof.
  intros Hne Hall. induction Hall as [|x rest Hx Hrest IH]; [done|]. clear Hne.
  assert (forall tail, Split (x +:+ String sep tail) sep = x :: Split tail sep) as Hx'.
  { intros tail. induction x as [|c x IHx].
    - rewrite append_nil_l. cbn [Split]. by rewrite Ascii.eqb_refl.
    - rewrite append_cons. simpl in Hx. apply orb_false_elim in Hx as [Hc Hx].
      cbn [Split]. rewrite Hc, (IHx Hx). done. }
  destruct rest as [|y rest].
  - simpl. clear IH Hx' Hrest. induction x as [|c x IHx]; [done|].
    simpl in Hx. apply orb_false_elim in Hx as [Hc Hx].
    cbn [Split]. by rewrite Hc, (IHx Hx).
  - rewrite Join_cons. change (String sep "" +:+ ?t) with (String sep t).
    rewrite Hx', IH; done.
Qed.

Lemma Split_of_Join_witness :
  Split (Join ["information_schema"; "performance_schema"; "test"] ",") comma
  = ["information_schema"; "performance_schema"; "test"].
Proof.
  apply (Split_of_Join ["information_schema"; "performance_schema"; "test"] comma).
  - discriminate.
  - repeat constructor.
Defined.

(** ** [bufio.Scanner] *)

Lemma rawLines_line l tail :
  hasByte newline l = false ->
  rawLines (l +:+ String newline tail) = l :: rawLines tail.
Proof.
  induction l as [|c l IH]; intros Hl.
  - rewrite append_nil_l. cbn [rawLines]. by rewrite Ascii.eqb_refl.
  - rewrite append_cons. simpl in Hl. apply orb_false_elim in Hl as [Hc Hl].
    cbn [rawLines]. by rewrite Hc, (IH Hl).
Qed.

Lemma rawLines_no_newline s : Forall (fun l => hasByte newline l = false) (rawLines s).
Proof.
  induction s as [|c s IH]; cbn [rawLines]; [constructor|].
  destruct (Ascii.eqb c newline) eqn:Hc; [by constructor|].
  destruct (rawLines s) as [|h t]; [repeat constructor; simpl; by rewrite Hc|].
  inversion IH; subst. constructor; [|done]. simpl. by rewrite Hc.
Qed.

Lemma dropCR_id l : endsWith carriage l = false -> dropCR l = l.
Proof.
  induction l as [|c l IH]; [done|]. destruct l as [|c' l].
  - simpl. by intros ->.
  - intros H. change (dropCR (String c (String c' l)))
      with (String c (dropCR (String c' l))). by rewrite IH.
Qed.

Lemma dropCR_append_CR l : dropCR (l +:+ String carriage "") = l.
Proof.
  induction l as [|c l IH]; [done|]. rewrite append_cons.
  destruct l as [|c' l]; [done|].
  rewrite append_cons in *.
  change (dropCR (String c (String c' ?t))) with (String c (dropCR (String c' t))).
  by rewrite IH.
Qed.

Lemma dropCR_length l : (String.length (dropCR l) <= String.length l)%nat.
Proof.
  induction l as [|c l IH]; [done|]. destruct l as [|c' l].
  - simpl. destruct (Ascii.eqb c carriage); simpl; lia.
  - change (dropCR (String c (String c' l)))
      with (String c (dropCR (String c' l))). simpl in *. lia.
Qed.

Lemma dropCR_no_newline l : hasByte newline l = false -> hasByte newline (dropCR l) = false.
Proof.
  induction l as [|c l IH]; [done|]. destruct l as [|c' l].
  - simpl. destruct (Ascii.eqb c carriage); [done|]. simpl. done.
  - change (dropCR (String c (String c' l)))
      with (String c (dropCR (String c' l))).
    intros H. cbn [hasByte] in H. apply orb_false_elim in H as [Hc H].
    cbn [hasByte]. rewrite Hc. by apply IH.
Qed.

Lemma hasByte_append c a b : hasByte c (a +:+ b) = hasByte c a || hasByte c b.
Proof.
  induction a as [|x a IH]; [done|]. rewrite append_cons. simpl.
  by rewrite IH, orb_assoc.
Qed.

(** The scan either yields every line, or stops on a line that does not
    fit the buffer. *)
Lemma scanTokens_spec ls :
  (scanTokens ls = (map dropCR ls, None)
   /\ Forall (fun l => Z.of_nat (String.length l) < MaxScanTokenSize) ls)
  \/ (snd (scanTokens ls) = Some ErrTooLong
      /\ Exists (fun l => MaxScanTokenSize <= Z.of_nat (String.length l)) ls).
Proof.
  induction ls as [|l ls IH]; [left; by repeat constructor|].
  cbn [scanTokens]. destruct (Z.leb_spec MaxScanTokenSize (Z.of_nat (String.length l))).
  - right. split; [done|]. by left.
  - destruct IH as [[-> Hall]|[Herr Hex]].
    + left. split; [done|]. by constructor.
    + right. destruct (scanTokens ls) as [ts e]. simpl in *. split; [done|]. by right.
Qed.

(** Round trip of the scanner: what is printed one name per line is
    scanned back as the same names, with line feeds and with carriage
    return and line feed alike, when no name holds a line feed, none is
    as long as the buffer, and, with bare line feeds, none ends with a
    carriage return. *)
Theorem Scanner_of_lines lines :
  (Forall (fun l => scannable 0 l /\ endsWith carriage l = false) lines ->
   Scanner (terminated (String newline "") lines) = (lines, None))
  /\ (Forall (scannable 1) lines ->
      Scanner (terminated (String carriage (String newline "")) lines)
      = (lines, None)).
Proof.
  unfold Scanner. split; intros Hall.
  - induction Hall as [|l ls [[Hnl Hlen] Hcr] Hls IH]; [done|].
    cbn [terminated]. change (String newline "" +:+ ?t) with (String newline t).
    rewrite rawLines_line by done. cbn [scanTokens].
    destruct (Z.leb_spec MaxScanTokenSize (Z.of_nat (String.length l))); [lia|].
    by rewrite IH, dropCR_id.
  - induction Hall as [|l ls [Hnl Hlen] Hls IH]; [done|].
    cbn [terminated].
    change (l +:+ String carriage (String newline "") +:+ ?t)
      with (l +:+ String carriage "" +:+ String newline t).
    rewrite <- append_assoc, rawLines_line
      by (rewrite hasByte_append, Hnl; reflexivity).
    cbn [scanTokens]. rewrite length_append. simpl String.length.
    destruct (Z.leb_spec MaxScanTokenSize (Z.of_nat (String.length l + 1))); [lia|].
    by rewrite IH, dropCR_append_CR.
Qed.

Lemma Scanner_of_lines_witness :
  Scanner (terminated (String newline "") ["orders"; "users"])
  = (["orders"; "users"], None).
Proof.
  apply (proj1 (Scanner_of_lines ["orders"; "users"])).
  repeat constructor; vm_compute; congruence.
Defined.

(** The newline after the last line is optional. *)
Theorem Scanner_final_newline s :
  s <> "" -> endsWith newline s = false ->
  Scanner (s +:+ String newline "") = Scanner s.
Proof.
  unfold Scanner. intros Hne Hend. f_equal.
  induction s as [|c s IH]; [done|]. clear Hne. rewrite append_cons.
  destruct s as [|c' s].
  - simpl in Hend. rewrite append_nil_l. cbn [rawLines].
    rewrite Hend, Ascii.eqb_refl. done.
  - cbn [rawLines] in *. by rewrite IH.
Qed.

Lemma Scanner_final_newline_witness :
  Scanner ("orders" +:+ String newline "users" +:+ String newline "")
  = Scanner ("orders" +:+ String newline "users").
Proof.
  rewrite <- append_assoc.
  apply (Scanner_final_newline ("orders" +:+ String newline "users"));
    [discriminate | reflexivity].
Defined.

(** ** [getTables] and [getDatabases] *)

Lemma Scanner_spec output :
  (Scanner output = (map dropCR (rawLines output), None)
   /\ Forall token (map dropCR (rawLines output)))
  \/ (snd (Scanner output) = Some ErrTooLong
      /\ Exists (fun l => MaxScanTokenSize <= Z.of_nat (String.length l))
           (rawLines output)).
Proof.
  unfold Scanner. destruct (scanTokens_spec (rawLines output)) as [[Hs Hall]|H];
    [left|by right].
  split; [done|]. pose proof (rawLines_no_newline output) as Hnl.
  clear Hs. revert Hnl.
  induction Hall as [|l ls Hl Hls IH]; intros Hnl; [constructor|].
  inversion Hnl; subst. cbn [map]. constructor; [|by apply IH].
  split; [by apply dropCR_no_newline|]. pose proof (dropCR_length l). lia.
Qed.

(** [getTables] is all or nothing.  When it returns no error, the command
    succeeded and the tables are the lines of its output, in order, each
    without its line ending.  When it returns an error it returns no
    table, and the error wraps the error of the command or, when a line
    of the output does not fit the scanner's buffer, [ErrTooLong]. *)
Theorem getTables_all_or_nothing env u p h port database :
  let out := cmdOutput env "mysql"
               (mysqlArgs u p h port ("SHOW TABLES FROM `" +:+ database +:+ "`")) in
  let r := getTables env u p h port database in
  match snd r with
  | None =>
      snd out = None /\ fst r = map dropCR (rawLines (fst out))
      /\ Forall token (fst r)
  | Some e =>
      fst r = []
      /\ ((snd out <> None /\ Unwrap e = snd out
           /\ Error e = "failed to execute mysql command: "
                        +:+ from_option Error "" (snd out))
          \/ (snd out = None /\ Unwrap e = Some ErrTooLong
              /\ Exists (fun l => MaxScanTokenSize <= Z.of_nat (String.length l))
                   (rawLines (fst out))))
  end.
Proof.
  unfold getTables, mysqlArgs. destruct (cmdOutput env _ _) as [output [e|]]; simpl.
  - split; [done|]. left. done.
  - destruct (Scanner_spec output) as [[-> Hall]|[Herr Hex]]; simpl; [done|].
    destruct (Scanner output) as [ts serr]. simpl in Herr. subst serr. simpl.
    split; [done|]. right. done.
Qed.

Lemma sublist_List_filter {A} (f : A -> bool) (l : list A) :
  sublist (List.filter f l) l.
Proof.
  induction l as [|x l IH]; simpl; [constructor|].
  destruct (f x); by constructor.
Qed.

(** [getDatabases] is all or nothing in the same way, and what it
    returns on success is the scanned lines with the members of the
    exclusion list taken out: the order of the server and repeated lines
    are kept. *)
Theorem getDatabases_all_or_nothing env u p h port skip :
  let out := cmdOutput env "mysql" (mysqlArgs u p h port "SHOW DATABASES") in
  let r := getDatabases env u p h port skip in
  match snd r with
  | None =>
      snd out = None
      /\ sublist (fst r) (map dropCR (rawLines (fst out)))
      /\ Forall token (fst r)
      /\ (forall d, ~ In d (Split skip comma) ->
                    count_occ String.string_dec (fst r) d
                    = count_occ String.string_dec (map dropCR (rawLines (fst out))) d)
  | Some e =>
      fst r = []
      /\ ((snd out <> None /\ Unwrap e = snd out)
          \/ (snd out = None /\ Unwrap e = Some ErrTooLong))
  end.
Proof.
  unfold getDatabases, mysqlArgs. destruct (cmdOutput env _ _) as [output [e|]]; simpl.
  - split; [done|]. left. done.
  - destruct (Scanner_spec output) as [[-> Hall]|[Herr Hex]]; simpl.
    + split; [done|]. split; [apply sublist_List_filter|]. split.
      * apply Forall_forall. intros d [Hd _]%list_elem_of_In%List.filter_In.
        by apply (proj1 (Forall_forall _ _) Hall), list_elem_of_In.
      * intros d Hd. clear Hall.
        induction (map dropCR (rawLines output)) as [|x l IH]; [done|].
        simpl. destruct (contains (Split skip comma) x) eqn:Hc; simpl.
        -- destruct (String.string_dec x d) as [->|]; [|exact IH].
           apply contains_In in Hc. done.
        -- destruct (String.string_dec x d); by rewrite IH.
    + destruct (Scanner output) as [ts serr]. simpl in Herr. subst serr. simpl.
      split; [done|]. right. done.
Qed.

(** With an empty exclusion string the only name excluded is the empty
    one: blank lines of the output are dropped and every other line is
    kept. *)
Theorem getDatabases_empty_skip env u p h port output lines d :
  cmdOutput env "mysql" (mysqlArgs u p h port "SHOW DATABASES") = (output, None) ->
  Scanner output = (lines, None) ->
  (In d (fst (getDatabases env u p h port "")) <-> In d lines /\ d <> "").
Proof.
  unfold getDatabases, mysqlArgs. intros -> ->. simpl.
  rewrite List.filter_In.
  destruct d as [|c d]; simpl; (split; intros [? H]; split; done).
Qed.

Lemma getDatabases_empty_skip_witness :
  In "test" (fst (getDatabases envOk "backup" "secret" "localhost" "3306" "")).
Proof.
  apply (getDatabases_empty_skip envOk "backup" "secret" "localhost" "3306"
           _ _ "test" eq_refl eq_refl).
  split; [vm_compute; tauto | discriminate].
Defined.

(** ** The stages of [uploadToGCS] *)

(** The upload stops at its first failing stage.  It returns nil exactly
    when no stage fails; its calls are always a prefix of the full
    sequence; the remote writer is closed only when the copy, the flush
    and the close of the compressor succeeded, so an earlier failure
    leaves the writer open and the object not finalized; the attributes
    are fetched only after the writer was closed without error; and an
    error returned wraps the error of the first failing stage. *)
Theorem uploadToGCS_stops_at_first_failure env path table :
  let object := objectName path table in
  let sink := gcsObject env object in
  let res := fst (run (uploadToGCS env path table)) in
  let calls := snd (run (uploadToGCS env path table)) in
  (res = None <-> firstErr (sinkStages sink) = None)
  /\ calls `prefix_of` uploadCalls object
  /\ (In (CWriterClose object) calls <->
      copy_err sink = None /\ flush_err sink = None /\ gzip_close_err sink = None)
  /\ (In (CAttrs object) calls <->
      copy_err sink = None /\ flush_err sink = None /\ gzip_close_err sink = None
      /\ writer_close_err sink = None)
  /\ (forall e, res = Some e -> Unwrap e = firstErr (sinkStages sink)).
Proof.
  intros object sink. unfold uploadToGCS, sinkStages, uploadCalls. unfold_calls.
  fold object. fold sink.
  destruct sink as [[?|] [?|] [?|] [?|] [?|]]; simpl;
    (split; [done|]); (split; [by eexists|]);
    (split; [intuition congruence|]); (split; [intuition congruence|]);
    by intros e' [= <-].
Qed.

(** ** The steps of the table task *)

Lemma Is_refl e : Is e e = true.
Proof. destruct e; simpl; by rewrite bool_decide_eq_true_2. Qed.

Lemma Is_Errorf prefix e target : Is e target = true -> Is (Errorf prefix e) target = true.
Proof. intros H. simpl. rewrite H. apply orb_true_r. Qed.

Lemma Is_Unwrap e cause : Unwrap e = Some cause -> Is e cause = true.
Proof.
  destruct e as [|m c]; [done|]. intros [= ->]. simpl.
  rewrite Is_refl. apply orb_true_r.
Qed.

(** A table task returns nil exactly when none of its steps fails: the
    pipe, the start, the five stages of the upload and the wait, the
    process having exited with status zero.  Its calls are then the whole
    sequence, the object being finalized and checked before the process
    is waited on. *)
Theorem tableTask_succeeds_iff env cfg hostname now database table :
  let args := mysqldumpArgs (dbUser cfg) (dbPass cfg) (dbHost cfg) (dbPort cfg)
                database table in
  let cmd := cmdProcess env "mysqldump" args in
  let object := objectKey hostname now database table in
  (taskResult env cfg hostname now database table = None
   <-> firstErr (taskStages cmd (gcsObject env object)) = None)
  /\ (taskResult env cfg hostname now database table = None ->
      proc_state cmd = Exited 0
      /\ taskCalls env cfg hostname now database table
         = [CStdoutPipe args; CStart args] ++ uploadCalls object ++ [CWait args]).
Proof.
  intros args cmd object. subst object.
  unfold objectKey, taskResult, taskCalls, tableTask, taskStages, sinkStages,
    uploadCalls.
  unfold_calls. fold args. fold cmd.
  destruct (pipe_err cmd); simpl; [done|].
  destruct (start_err cmd); simpl; [done|].
  unfold uploadToGCS. unfold_calls.
  destruct (gcsObject env _) as [[?|] [?|] [?|] [?|] [?|]]; simpl;
    try (split; done).
  destruct (proc_state cmd) as [code|sig]; simpl; [|done].
  destruct (Z.eqb_spec code 0) as [->|]; simpl; done.
Qed.

Lemma tableTask_succeeds_iff_witness :
  proc_state (cmdProcess envOk "mysqldump"
                (mysqldumpArgs "backup" "secret" "localhost" "3306" "appdb" "users"))
  = Exited 0.
Proof.
  apply (proj2 (tableTask_succeeds_iff envOk sampleCfg "db1" morning "appdb" "users")).
  reflexivity.
Defined.

(** The error a table task returns keeps its cause: the error of the
    first step that failed is found in it by [errors.Is]. *)
Theorem tableTask_error_Is_cause env cfg hostname now database table cause :
  let args := mysqldumpArgs (dbUser cfg) (dbPass cfg) (dbHost cfg) (dbPort cfg)
                database table in
  let cmd := cmdProcess env "mysqldump" args in
  let object := objectKey hostname now database table in
  firstErr (taskStages cmd (gcsObject env object)) = Some cause ->
  exists e, taskResult env cfg hostname now database table = Some e
            /\ Is e cause = true.
Proof.
  intros args cmd object. subst object.
  unfold objectKey, taskResult, tableTask, taskStages, sinkStages.
  unfold_calls. fold args. fold cmd.
  destruct (pipe_err cmd) as [e0|]; simpl.
  { intros [= <-]. eexists. split; [done|]. apply Is_Errorf, Is_refl. }
  destruct (start_err cmd) as [e0|]; simpl.
  { intros [= <-]. eexists. split; [done|]. apply Is_Errorf, Is_refl. }
  unfold uploadToGCS. unfold_calls.
  destruct (gcsObject env _) as [[?|] [?|] [?|] [?|] [?|]]; simpl;
    try (intros [= <-]; eexists; split; [done|];
         do 2 apply Is_Errorf; apply Is_refl).
  destruct (waitError (proc_state cmd)); simpl; intros [= <-].
  eexists. split; [done|]. apply Is_Errorf, Is_refl.
Qed.

Lemma tableTask_error_Is_cause_witness :
  exists e, taskResult envUploadFails sampleCfg "db1" morning "appdb" "orders" = Some e
            /\ Is e (errorString "googleapi: Error 503") = true.
Proof.
  apply (tableTask_error_Is_cause envUploadFails sampleCfg "db1" morning
           "appdb" "orders"). reflexivity.
Defined.

(** What a failing task has not done.  When the pipe cannot be created
    nothing else is called; when the process cannot be started no call
    reaches the object store; and the process is waited on exactly when
    the pipe, the start and every stage of the upload succeeded. *)
Theorem tableTask_failure_leaves_out env cfg hostname now database table :
  let args := mysqldumpArgs (dbUser cfg) (dbPass cfg) (dbHost cfg) (dbPort cfg)
                database table in
  let cmd := cmdProcess env "mysqldump" args in
  let object := objectKey hostname now database table in
  let calls := taskCalls env cfg hostname now database table in
  (pipe_err cmd <> None -> calls = [CStdoutPipe args])
  /\ (pipe_err cmd = None -> start_err cmd <> None ->
      calls = [CStdoutPipe args; CStart args])
  /\ (In (CWait args) calls <->
      pipe_err cmd = None /\ start_err cmd = None
      /\ firstErr (sinkStages (gcsObject env object)) = None).
Proof.
  intros args cmd object.
  unfold taskCalls, tableTask. unfold_calls. fold args. fold cmd.
  destruct (pipe_err cmd) as [e0|]; simpl.
  { split; [done|]. split; [done|]. intuition congruence. }
  destruct (start_err cmd) as [e0|]; simpl.
  { split; [done|]. split; [done|]. intuition congruence. }
  split; [done|]. split; [done|].
  rewrite uploadToGCS_log.
  fold (objectKey hostname now database table). fold object.
  unfold uploadToGCS, sinkStages. unfold_calls.
  fold (objectKey hostname now database table). fold object.
  destruct (gcsObject env object) as [[?|] [?|] [?|] [?|] [?|]]; simpl;
    try (intuition congruence).
  all: destruct (waitError (proc_state cmd)); simpl; intuition congruence.
Qed.

Lemma tableTask_failure_leaves_out_witness :
  taskCalls envOk sampleCfg "db1" morning "appdb" "users" <> []
  /\ In (CWait (mysqldumpArgs "backup" "secret" "localhost" "3306" "appdb" "users"))
       (taskCalls envOk sampleCfg "db1" morning "appdb" "users").
Proof.
  split; [discriminate|].
  apply (proj2 (proj2 (tableTask_failure_leaves_out envOk sampleCfg "db1" morning
                         "appdb" "users"))).
  repeat split.
Defined.

(** ** Jobs that returned *)

Lemma eventJob_quiet i ev : eventJob ev <> Some i -> quietFor i ev.
Proof. destruct ev; simpl; try done; congruence. Qed.

Lemma ended_quiet i ev h : quietFor i ev -> ended i (ev :: h) = ended i h.
Proof. destruct ev; simpl; try done. intros. by rewrite decide_False. Qed.

Lemma noJobEnd_cons i ev h :
  (forall r, ev <> EvJobEnd i r) -> noJobEnd i h -> noJobEnd i (ev :: h).
Proof. intros Hev Hno r [Heq|Hin]; [by apply (Hev r)|by apply (Hno r)]. Qed.

Lemma eventJob_not_end i ev : eventJob ev <> Some i -> forall r, ev <> EvJobEnd i r.
Proof. intros H r ->. by apply H. Qed.

Lemma jobOutcome_quiet env cfg database i ev h :
  quietFor i ev ->
  jobOutcome env cfg database i (ev :: h) = jobOutcome env cfg database i h.
Proof. intros Hq. unfold jobOutcome. by rewrite firstTaskErr_quiet. Qed.

Lemma jobRunning_quiet ev h i j :
  eventJob ev <> Some i -> jobRunning h i j -> jobRunning (ev :: h) i j.
Proof.
  intros Hev [Hno Hj]. split; [by apply noJobEnd_cons, Hno; apply eventJob_not_end|].
  destruct j; rewrite ?started_quiet, ended_quiet by (by apply eventJob_quiet); done.
Qed.

Lemma jobFinished_quiet env cfg databases ev h i :
  eventJob ev <> Some i ->
  jobFinished env cfg databases h i -> jobFinished env cfg databases (ev :: h) i.
Proof.
  intros Hev (Hend & database & Hdb & Hin & Huniq & Hfail).
  pose proof (eventJob_quiet _ _ Hev) as Hq.
  split; [by rewrite started_quiet, ended_quiet|].
  exists database. rewrite jobOutcome_quiet, started_quiet by done.
  split; [done|]. split; [by right|]. split; [|done].
  intros r [Heq|Hr]; [by destruct (eventJob_not_end _ _ Hev r)|by apply Huniq].
Qed.

Lemma firstTaskErr_In i h e :
  firstTaskErr i h = Some e -> exists j, In (EvTaskEnd i j (Some e)) h.
Proof.
  induction h as [|ev h IH]; [done|]. cbn [firstTaskErr].
  destruct (firstTaskErr i h) as [e'|].
  - intros [= ->]. destruct (IH eq_refl) as [j Hj]. exists j. by right.
  - destruct ev as [| | |i' j [e'|]| |]; try done. simpl.
    case_decide as Hi; [|done]. subst i'. intros [= ->]. exists j. by left.
Qed.

Lemma firstTaskErr_None i h j e :
  firstTaskErr i h = None -> ~ In (EvTaskEnd i j (Some e)) h.
Proof.
  induction h as [|ev h IH]; [by intros _ []|]. cbn [firstTaskErr].
  destruct (firstTaskErr i h) as [e'|]; [done|].
  intros Hev [->|Hin]; [|by apply IH].
  simpl in Hev. by rewrite decide_True in Hev.
Qed.

Lemma firstJobErr_In h e :
  firstJobErr h = Some e -> exists i, In (EvJobEnd i (Some e)) h.
Proof.
  induction h as [|ev h IH]; [done|]. cbn [firstJobErr].
  destruct (firstJobErr h) as [e'|].
  - intros [= ->]. destruct (IH eq_refl) as [i Hi]. exists i. by right.
  - destruct ev as [| | | |i [e'|]|]; try done. intros [= ->]. exists i. by left.
Qed.

Lemma firstJobErr_None h i r :
  firstJobErr h = None -> In (EvJobEnd i r) h -> r = None.
Proof.
  induction h as [|ev h IH]; [by intros _ []|]. cbn [firstJobErr].
  destruct (firstJobErr h) as [e'|]; [done|].
  intros Hev [->|Hin]; [|by apply IH]. by rewrite jobFailure_end in Hev.
Qed.

Lemma ended_zero_firstTaskErr i h : ended i h = 0%nat -> firstTaskErr i h = None.
Proof.
  induction h as [|ev h IH]; [done|].
  destruct ev as [| | |i' j r| |]; cbn [ended firstTaskErr]; intros H;
    try (rewrite (IH H); done).
  case_decide as Hi; [done|]. rewrite (IH H).
  destruct r as [e|]; simpl; [|done]. by rewrite decide_False.
Qed.

Section RunHistory2.
Variable env : Env.
Variable cfg : Config.
Variable hostname : string.
Variable databases : list string.

#[local] Abbreviation step := (step env cfg hostname databases).
#[local] Abbreviation exec := (exec env cfg hostname databases).
#[local] Abbreviation tablesOf := (tablesOf env cfg).
#[local] Abbreviation histInv := (histInv env cfg databases).
#[local] Abbreviation histInv2 := (histInv2 env cfg databases).
#[local] Abbreviation stateInv := (stateInv env cfg databases).
#[local] Abbreviation jobFinished := (jobFinished env cfg databases).
#[local] Abbreviation jobOutcome := (jobOutcome env cfg).

(** An event of the running job [i0] leaves what is known of the other
    jobs as it is. *)
Lemma histInv2_frame h s ev i0 j0 s' :
  stateInv s -> histInv2 h s ->
  m_jobs s !! i0 = Some j0 ->
  eventJob ev = Some i0 ->
  m_next s' = m_next s ->
  (forall i, i <> i0 -> m_jobs s' !! i = m_jobs s !! i) ->
  (forall i, (m_next s' <= i)%nat -> ended i (ev :: h) = 0%nat /\ noJobEnd i (ev :: h))
  /\ (forall i j, i <> i0 -> m_jobs s' !! i = Some j -> jobRunning (ev :: h) i j)
  /\ (forall i, i <> i0 -> (i < m_next s')%nat -> m_jobs s' !! i = None ->
                jobFinished (ev :: h) i)
  /\ (forall i database, (i < m_next s')%nat -> databases !! i = Some database ->
                         In (EvJobStart i database) (ev :: h)).
Proof.
  intros (_ & _ & _ & Hfresh & _) (H1 & H2 & H3 & H4) Hi0 Hev Hn Hother.
  assert (forall i, i <> i0 -> eventJob ev <> Some i) as Hne by congruence.
  split; [|split; [|split]].
  - intros i Hi. rewrite Hn in Hi.
    assert (i <> i0) as Hii.
    { intros ->. rewrite Hfresh in Hi0 by done. discriminate. }
    destruct (H1 i Hi) as [He Hno].
    rewrite ended_quiet by (by apply eventJob_quiet, Hne).
    split; [done|]. by apply noJobEnd_cons; [apply eventJob_not_end, Hne|].
  - intros i j Hii Hj. rewrite Hother in Hj by done.
    apply jobRunning_quiet; auto.
  - intros i Hii Hlt Hnone. rewrite Hn in Hlt. rewrite Hother in Hnone by done.
    apply jobFinished_quiet; auto.
  - intros i database Hlt Hdb. rewrite Hn in Hlt. right. by apply H4.
Qed.

Lemma hist2_step h s ev s' :
  stateInv s -> histInv h s -> histInv2 h s -> step s ev s' ->
  histInv2 (ev :: h) s'.
Proof.
  intros Hst Hh Hh2 Hstep.
  pose proof Hh as (_ & Hb & Hc & _ & _).
  pose proof Hh2 as (H1 & H2 & H3 & H4).
  pose proof Hst as (Hg & _ & _ & Hfresh & Hjobs).
  destruct Hstep as [s database g Hex Hdb Hacq
                    |s i database e r Hi Herr Hr
                    |s i database g Hi Hok Hset
                    |s i database tables k g tasks table g' now Hi Htab Hacq
                    |s i database tables k g tasks j task r Hi Hj Hr
                    |s i database tables k g tasks r Hi Hk Hwait
                    |s r Hex Hnext Hwait].
  - (* dbGroup.Go *)
    unfold histInv2; cbn [m_next m_group m_jobs m_exit].
    split; [|split; [|split]].
    + intros i Hi. destruct (H1 i) as [He Hno]; [lia|].
      rewrite ended_quiet by done. split; [done|]. by apply noJobEnd_cons.
    + intros i j. rewrite lookup_insert. case_decide as Heq.
      * subst i. intros [= <-]. destruct (H1 (m_next s)) as [He Hno]; [lia|].
        split; [by apply noJobEnd_cons|]. by rewrite ended_quiet.
      * intros Hj. apply jobRunning_quiet; [simpl; congruence|]. by apply H2.
    + intros i Hlt. rewrite lookup_insert. case_decide as Heq; [done|]. intros Hnone.
      apply jobFinished_quiet; [simpl; congruence|]. apply H3; [lia|done].
    + intros i db Hlt Hdb'. destruct (decide (i = m_next s)) as [->|].
      * left. congruence.
      * right. apply H4; [lia|done].
  - (* getTables fails *)
    destruct (histInv2_frame h s (EvJobEnd i r) i _ (endJob s i r) Hst Hh2 Hi)
      as (H1' & H2' & H3' & H4');
      [done | done | by intros; simpl; rewrite lookup_delete_ne |].
    split; [exact H1'|]. split; [|split; [|exact H4']].
    + intros i' j'. destruct (decide (i' = i)) as [->|]; [|by apply H2'].
      cbn [endJob m_jobs]. by rewrite lookup_delete_eq.
    + intros i' Hlt Hnone. destruct (decide (i' = i)) as [->|]; [|by apply H3'].
      destruct (Hc _ _ Hi) as (Hdbi & Hs0 & _). destruct (H2 _ _ Hi) as [Hno He0].
      split. { rewrite ended_quiet, started_quiet by done. simpl in He0. congruence. }
      exists database. unfold jobOutcome. rewrite Herr, <- Hr, started_quiet by done.
      split; [done|]. split; [by left|]. split; [|done].
      intros r' [[= <-]|Hin]; [done|]. by destruct (Hno r').
  - (* getTables succeeds *)
    destruct (histInv2_frame h s (EvTables i (fst (tablesOf database))) i _
                (setJob s i (JobLoop database (fst (tablesOf database)) 0 g ∅))
                Hst Hh2 Hi)
      as (H1' & H2' & H3' & H4');
      [done | done | by intros; simpl; rewrite lookup_insert_ne |].
    split; [exact H1'|]. split; [|split; [|exact H4']].
    + intros i' j'. destruct (decide (i' = i)) as [->|]; [|by apply H2'].
      cbn [setJob m_jobs]. rewrite lookup_insert_eq. intros [= <-].
      destruct (Hc _ _ Hi) as (_ & Hs0 & _). destruct (H2 _ _ Hi) as [Hno He0].
      split; [by apply noJobEnd_cons|].
      rewrite started_quiet, ended_quiet, map_size_empty by done. lia.
    + intros i' Hlt Hnone. destruct (decide (i' = i)) as [->|]; [|by apply H3'].
      cbn [setJob m_jobs] in Hnone. by rewrite lookup_insert_eq in Hnone.
  - (* tableGroup.Go *)
    destruct (histInv2_frame h s (EvTaskStart i k table now) i _
                (setJob s i (JobLoop database tables (S k) g'
                               (<[k := mkTask table now]> tasks)))
                Hst Hh2 Hi)
      as (H1' & H2' & H3' & H4');
      [done | done | by intros; simpl; rewrite lookup_insert_ne |].
    split; [exact H1'|]. split; [|split; [|exact H4']].
    + intros i' j'. destruct (decide (i' = i)) as [->|]; [|by apply H2'].
      cbn [setJob m_jobs]. rewrite lookup_insert_eq. intros [= <-].
      destruct (H2 _ _ Hi) as [Hno Hcount].
      destruct (Hjobs _ _ Hi) as (_ & _ & _ & _ & Hfr).
      split; [by apply noJobEnd_cons|].
      rewrite map_size_insert_None by (apply Hfr; lia).
      cbn [started ended]. rewrite decide_True by done. simpl in Hcount. lia.
    + intros i' Hlt Hnone. destruct (decide (i' = i)) as [->|]; [|by apply H3'].
      cbn [setJob m_jobs] in Hnone. by rewrite lookup_insert_eq in Hnone.
  - (* a table task returns *)
    destruct (histInv2_frame h s (EvTaskEnd i j r) i _
                (setJob s i (JobLoop database tables k (done g r) (delete j tasks)))
                Hst Hh2 Hi)
      as (H1' & H2' & H3' & H4');
      [done | done | by intros; simpl; rewrite lookup_insert_ne |].
    split; [exact H1'|]. split; [|split; [|exact H4']].
    + intros i' j'. destruct (decide (i' = i)) as [->|]; [|by apply H2'].
      cbn [setJob m_jobs]. rewrite lookup_insert_eq. intros [= <-].
      destruct (H2 _ _ Hi) as [Hno Hcount].
      split; [by apply noJobEnd_cons|].
      rewrite map_size_delete_Some by eauto.
      pose proof (size_pos _ _ _ Hj).
      cbn [started ended]. rewrite decide_True by done. simpl in Hcount. lia.
    + intros i' Hlt Hnone. destruct (decide (i' = i)) as [->|]; [|by apply H3'].
      cbn [setJob m_jobs] in Hnone. by rewrite lookup_insert_eq in Hnone.
  - (* tableGroup.Wait *)
    destruct (histInv2_frame h s (EvJobEnd i r) i _ (endJob s i r) Hst Hh2 Hi)
      as (H1' & H2' & H3' & H4');
      [done | done | by intros; simpl; rewrite lookup_delete_ne |].
    split; [exact H1'|]. split; [|split; [|exact H4']].
    + intros i' j'. destruct (decide (i' = i)) as [->|]; [|by apply H2'].
      cbn [endJob m_jobs]. by rewrite lookup_delete_eq.
    + intros i' Hlt Hnone. destruct (decide (i' = i)) as [->|]; [|by apply H3'].
      destruct (Hc _ _ Hi) as (Hdbi & Hok & _ & Herrg & _).
      destruct (H2 _ _ Hi) as [Hno Hcount].
      destruct (Hjobs _ _ Hi) as (_ & (_ & Hwg & _) & _).
      destruct (Wait_Some _ _ Hwait) as [Hzero ->].
      split. { rewrite ended_quiet, started_quiet by done. simpl in Hcount. lia. }
      exists database. unfold jobOutcome.
      rewrite Hok, firstTaskErr_quiet, <- Herrg by done.
      split; [done|]. split; [by left|]. split; [|done].
      intros r' [[= <-]|Hin]; [done|]. by destruct (Hno r').
  - (* dbGroup.Wait *)
    unfold histInv2; cbn [m_next m_group m_jobs m_exit].
    split; [|split; [|split]].
    + intros i Hi. destruct (H1 i Hi) as [He Hno].
      rewrite ended_quiet by done. split; [done|]. by apply noJobEnd_cons.
    + intros i j Hj. apply jobRunning_quiet; [discriminate|]. by apply H2.
    + intros i Hlt Hnone. apply jobFinished_quiet; [discriminate|]. by apply H3.
    + intros i db Hlt Hdb'. right. by apply H4.
Qed.

Lemma exec_hist2 h s : exec h s -> histInv2 h s.
Proof.
  induction 1 as [g Hp Hg|h s ev s' Hexec IH Hstep].
  - unfold histInv2; simpl. split; [by intros i _; split; [|intros r []]|].
    split; [intros i j; by rewrite lookup_empty|]. split; intros; lia.
  - eapply hist2_step; eauto using exec_inv, exec_hist.
Qed.

End RunHistory2.

Lemma exec_job_end env cfg hostname databases h s i r :
  exec env cfg hostname databases h s ->
  In (EvJobEnd i r) h ->
  m_jobs s !! i = None /\ jobFinished env cfg databases h i
  /\ exists database, databases !! i = Some database
                      /\ r = jobOutcome env cfg database i h.
Proof.
  intros Hexec Hin.
  destruct (exec_hist2 _ _ _ _ _ _ Hexec) as (H1 & H2 & H3 & _).
  destruct (m_jobs s !! i) as [j|] eqn:Hj.
  { destruct (H2 _ _ Hj) as [Hno _]. by destruct (Hno r). }
  destruct (Nat.le_gt_cases (m_next s) i) as [Hle|Hlt].
  { destruct (H1 _ Hle) as [_ Hno]. by destruct (Hno r). }
  pose proof (H3 _ Hlt Hj) as Hfin. split; [done|]. split; [done|].
  destruct Hfin as (_ & database & Hdb & _ & Huniq & _). eauto.
Qed.

(** The barriers.  A job returns only when every table task it started
    has returned; when the run reports, that holds of every job, and
    every database has had its job started and returned, with the outcome
    of that job. *)
Theorem run_waits_for_every_task env cfg hostname databases h s :
  exec env cfg hostname databases h s ->
  (forall i r s',
     step env cfg hostname databases s (EvJobEnd i r) s' ->
     ended i h = started i h)
  /\ (forall r,
        m_exit s = Some r ->
        (forall i, ended i h = started i h)
        /\ forall i database,
             databases !! i = Some database ->
             In (EvJobStart i database) h
             /\ In (EvJobEnd i (jobOutcome env cfg database i h)) h).
Proof.
  intros Hexec.
  destruct (exec_hist _ _ _ _ _ _ Hexec) as (_ & Hb & Hc & _ & He).
  destruct (exec_hist2 _ _ _ _ _ _ Hexec) as (H1 & H2 & H3 & H4).
  destruct (exec_inv _ _ _ _ _ _ Hexec) as (_ & _ & _ & _ & Hjobs).
  split.
  - intros i r s' Hstep.
    inversion Hstep
      as [|s0 i0 database e r0 Hi Herr Hr| | |
          |s0 i0 database tables k g tasks r0 Hi Hk Hwait|]; subst.
    + destruct (Hc _ _ Hi) as (_ & Hs0 & _). destruct (H2 _ _ Hi) as [_ He0].
      simpl in He0. congruence.
    + destruct (H2 _ _ Hi) as [_ Hcount].
      destruct (Hjobs _ _ Hi) as (_ & (_ & Hwg & _) & _).
      destruct (Wait_Some _ _ Hwait) as [Hzero _]. simpl in Hcount. lia.
  - intros r Hex. destruct (He _ Hex) as (_ & Hnext & Hempty). split.
    + intros i. destruct (Nat.le_gt_cases (m_next s) i) as [Hle|Hlt].
      * destruct (Hb _ Hle) as [-> _]. by destruct (H1 _ Hle) as [-> _].
      * apply H3; [done|]. by rewrite Hempty, lookup_empty.
    + intros i database Hdb.
      assert (i < m_next s)%nat as Hlt.
      { rewrite Hnext. by eapply lookup_lt_Some. }
      split; [by apply H4|].
      destruct (H3 i Hlt) as (_ & database' & Hdb' & Hin & _).
      { by rewrite Hempty, lookup_empty. }
      congruence.
Qed.

Lemma run_waits_for_every_task_witness :
  ended 0 sampleHistory = started 0 sampleHistory.
Proof.
  exact (proj1 (proj2 (run_waits_for_every_task envDumpFails sampleCfg "db1"
                         ["appdb"] sampleHistory _ (sample_exec 0 _ eq_refl))
                 (Some failedOrders) eq_refl) 0%nat).
Defined.

(** The verdict of a run.  It reports nil exactly when the tables of every
    database could be listed and no table task returned an error; an
    error it reports was returned by the job of some database, and is
    either the error a table task of that job returned, unchanged, or the
    wrapped error of its table listing. *)
Theorem run_succeeds_iff env cfg hostname databases h s r :
  exec env cfg hostname databases h s ->
  m_exit s = Some r ->
  (r = None <->
   (forall database, In database databases ->
                     snd (tablesOf env cfg database) = None)
   /\ (forall i j e, ~ In (EvTaskEnd i j (Some e)) h))
  /\ (forall e,
        r = Some e ->
        exists i database,
          databases !! i = Some database /\ In (EvJobEnd i (Some e)) h
          /\ ((exists j, In (EvTaskEnd i j (Some e)) h)
              \/ exists cause,
                   snd (tablesOf env cfg database) = Some cause
                   /\ e = Errorf ("failed to retrieve list of tables for database "
                                  +:+ database +:+ ": ") cause)).
Proof.
  intros Hexec Hex.
  destruct (exec_hist _ _ _ _ _ _ Hexec) as (_ & Hb & _ & _ & He).
  destruct (exec_hist2 _ _ _ _ _ _ Hexec) as (_ & _ & H3 & _).
  destruct (He _ Hex) as (-> & Hnext & Hempty).
  assert (forall i database, databases !! i = Some database ->
            In (EvJobEnd i (jobOutcome env cfg database i h)) h) as Hend.
  { intros i database Hdb.
    destruct (H3 i) as (_ & database' & Hdb' & Hin & _).
    - rewrite Hnext. by eapply lookup_lt_Some.
    - by rewrite Hempty, lookup_empty.
    - congruence. }
  split; [split|].
  - intros Hnone. split.
    + intros database [i Hdb]%list_elem_of_In%list_elem_of_lookup_1.
      pose proof (firstJobErr_None _ _ _ Hnone (Hend _ _ Hdb)) as Hout.
      unfold jobOutcome in Hout. by destruct (snd (tablesOf env cfg database)).
    + intros i j e Hin.
      destruct (Nat.le_gt_cases (m_next s) i) as [Hle|Hlt].
      * destruct (Hb _ Hle) as [_ Hf]. by apply (firstTaskErr_None _ _ j e Hf).
      * rewrite Hnext in Hlt. apply lookup_lt_is_Some_2 in Hlt as [database Hdb].
        pose proof (firstJobErr_None _ _ _ Hnone (Hend _ _ Hdb)) as Hout.
        unfold jobOutcome in Hout.
        destruct (snd (tablesOf env cfg database)); [done|].
        by apply (firstTaskErr_None _ _ j e Hout).
  - intros [Htabs Hnofail]. destruct (firstJobErr h) as [e|] eqn:Hf; [|done].
    exfalso. destruct (firstJobErr_In _ _ Hf) as [i Hin].
    destruct (exec_job_end _ _ _ _ _ _ _ _ Hexec Hin)
      as (_ & _ & database & Hdb & Hout).
    unfold jobOutcome in Hout.
    rewrite (Htabs database) in Hout
      by (by eapply list_elem_of_In, list_elem_of_lookup_2).
    symmetry in Hout. destruct (firstTaskErr_In _ _ _ Hout) as [j Hj].
    by apply (Hnofail i j e).
  - intros e Hf. destruct (firstJobErr_In _ _ Hf) as [i Hin].
    destruct (exec_job_end _ _ _ _ _ _ _ _ Hexec Hin)
      as (_ & _ & database & Hdb & Hout).
    exists i, database. split; [done|]. split; [done|].
    unfold jobOutcome in Hout.
    destruct (snd (tablesOf env cfg database)) as [cause|].
    + right. exists cause. split; [done|]. by injection Hout.
    + left. symmetry in Hout. by apply firstTaskErr_In.
Qed.

Lemma run_succeeds_iff_witness :
  exists i database,
    ["appdb"] !! i = Some database /\ In (EvJobEnd i (Some failedOrders)) sampleHistory
    /\ ((exists j, In (EvTaskEnd i j (Some failedOrders)) sampleHistory)
        \/ exists cause,
             snd (tablesOf envDumpFails sampleCfg database) = Some cause
             /\ failedOrders
                = Errorf ("failed to retrieve list of tables for database "
                          +:+ database +:+ ": ") cause).
Proof.
  exact (proj2 (run_succeeds_iff envDumpFails sampleCfg "db1" ["appdb"]
                  sampleHistory _ (Some failedOrders)
                  (sample_exec 0 _ eq_refl) eq_refl) failedOrders eq_refl).
Defined.

(** Jobs without table tasks.  A job whose table listing fails returns an
    error without having started a task; a job whose database has no
    table starts none either and returns nil. *)
Theorem job_without_tables env cfg hostname databases h s i r :
  exec env cfg hostname databases h s ->
  In (EvJobEnd i r) h ->
  exists database,
    databases !! i = Some database
    /\ (snd (tablesOf env cfg database) <> None ->
        started i h = 0%nat /\ r <> None)
    /\ (snd (tablesOf env cfg database) = None ->
        fst (tablesOf env cfg database) = [] ->
        started i h = 0%nat /\ r = None).
Proof.
  intros Hexec Hin.
  destruct (exec_job_end _ _ _ _ _ _ _ _ Hexec Hin)
    as (Hnone & Hfin & database & Hdb & ->).
  destruct Hfin as (Hended & database' & Hdb' & _ & _ & Hfail).
  assert (database' = database) as -> by congruence.
  exists database. split; [done|]. split.
  - intros Herr. split; [by apply Hfail|]. unfold jobOutcome.
    by destruct (snd (tablesOf env cfg database)).
  - intros Hok Hnil.
    destruct (exec_hist _ _ _ _ _ _ Hexec) as (_ & _ & _ & Hd & _).
    assert (i < m_next s)%nat as Hlt.
    { destruct (exec_hist2 _ _ _ _ _ _ Hexec) as (H1 & _).
      destruct (Nat.le_gt_cases (m_next s) i) as [Hle|]; [|done].
      destruct (H1 _ Hle) as [_ Hno]. by destruct (Hno _ Hin). }
    pose proof (Hd _ _ Hlt Hnone Hdb Hok) as Hstarted.
    rewrite Hnil in Hstarted. simpl in Hstarted. split; [done|].
    unfold jobOutcome. rewrite Hok. apply ended_zero_firstTaskErr. congruence.
Qed.

Lemma exec_two n s :
  replay envTwo sampleCfg "db1" ["emptydb"; "gonedb"] (drop n historyTwo) = Some s ->
  exec envTwo sampleCfg "db1" ["emptydb"; "gonedb"] (drop n historyTwo) s.
Proof. apply replay_exec. Qed.

Lemma job_without_tables_witness :
  (started 0 historyTwo = 0%nat /\ started 1 historyTwo = 0%nat).
Proof.
  split.
  - destruct (job_without_tables envTwo sampleCfg "db1" ["emptydb"; "gonedb"]
                historyTwo _ 0%nat None (exec_two 0 _ eq_refl))
      as (database & Hdb & _ & Hempty).
    { unfold historyTwo. simpl. tauto. }
    injection Hdb as <-. apply Hempty; reflexivity.
  - destruct (job_without_tables envTwo sampleCfg "db1" ["emptydb"; "gonedb"]
                historyTwo _ 1%nat (Some goneError) (exec_two 0 _ eq_refl))
      as (database & Hdb & Hfail & _).
    { unfold historyTwo. simpl. tauto. }
    injection Hdb as <-. apply Hfail. discriminate.
Defined.

(** ** The limits at their edges *)

Lemma limitOf_zero bits : 0 < bits -> limitOf bits 0 = Some 0%nat.
Proof.
  intros Hb. unfold limitOf, toInt.
  assert (0 < 2 ^ (bits - 1)) by (apply Z.pow_pos_nonneg; lia).
  destruct (Z.ltb_spec 0 (2 ^ (bits - 1))); [|lia]. reflexivity.
Qed.

Lemma acquire_zero bits u g n :
  groupInv bits u g n -> limitOf bits u = Some 0%nat -> acquire g = None.
Proof.
  intros (Hsem & _ & _) Hlim. unfold acquire. rewrite Hsem, Hlim.
  by destruct (tokens g).
Qed.

Lemma acquire_free bits u g n cap :
  groupInv bits u g n ->
  (limitOf bits u = None \/ (limitOf bits u = Some cap /\ (n < cap)%nat)) ->
  exists g', acquire g = Some g'.
Proof.
  intros (Hsem & _ & Htok) Hlim. unfold acquire. rewrite Hsem in *.
  destruct Hlim as [Hl|[Hl Hlt]]; rewrite Hl in *; [by eexists|].
  destruct Htok as [-> _].
  destruct (Nat.ltb_spec n cap); [by eexists|lia].
Qed.

Lemma limitOf_positive bits u :
  0 < bits -> 0 < u < 2 ^ bits ->
  limitOf bits u = None \/ exists cap, limitOf bits u = Some cap /\ (0 < cap)%nat.
Proof.
  intros Hb Hu. unfold limitOf, toInt.
  destruct (Z.ltb_spec u (2 ^ (bits - 1))).
  - destruct (Z.ltb_spec u 0); [lia|]. right. eexists. split; [done|]. lia.
  - destruct (Z.ltb_spec (u - 2 ^ bits) 0); [by left|lia].
Qed.

Lemma SetLimit_newGroup n : exists g, SetLimit newGroup n = Some g.
Proof. unfold SetLimit. destruct (n <? 0); simpl; by eexists. Qed.

(** With [-dbLimit=0] the run hangs: no job is ever started, and unless
    there is no database at all nothing happens and [main] never gets past
    [dbGroup.Go]. *)
Theorem zero_dbLimit_hangs env cfg hostname databases h s :
  0 < intSize cfg -> dbLimit cfg = 0 ->
  exec env cfg hostname databases h s ->
  (forall i database, ~ In (EvJobStart i database) h)
  /\ (databases <> [] -> h = [] /\ m_exit s = None).
Proof.
  intros Hb Hlim Hexec.
  assert (m_jobs s = ∅ /\ m_next s = 0%nat
          /\ ((h = [] /\ m_exit s = None)
              \/ (databases = [] /\ exists r, h = [EvExit r]))) as (_ & _ & Hh).
  { induction Hexec as [g Hp Hg|h s ev s' Hexec IH Hstep]; [by auto|].
    destruct IH as (Hempty & Hnext & Hh).
    destruct (exec_inv _ _ _ _ _ _ Hexec) as (Hg & _).
    destruct Hstep as [s database g Hex Hdb Hacq
                      |s i database e r Hi Herr Hr
                      |s i database g Hi Hok Hset
                      |s i database tables k g tasks table g' now Hi Htab Hacq
                      |s i database tables k g tasks j task r Hi Hj Hr
                      |s i database tables k g tasks r Hi Hk Hwait
                      |s r Hex Hnext' Hwait];
      try (rewrite Hempty, lookup_empty in Hi; discriminate).
    - rewrite (acquire_zero _ _ _ _ Hg) in Hacq; [done|].
      rewrite Hlim. by apply limitOf_zero.
    - destruct Hh as [[-> _]|[_ [r' ->]]].
      + simpl. split; [done|]. split; [done|]. right.
        split; [|by eauto]. rewrite Hnext in Hnext'. symmetry in Hnext'.
        by apply nil_length_inv.
      + destruct (exec_hist _ _ _ _ _ _ Hexec) as (_ & _ & _ & _ & He).
        inversion Hexec as [|h0 s0 ev0 s1 Hexec0 Hstep0]; subst.
        inversion Hstep0; subst. simpl in Hex. discriminate. }
  split.
  - intros i database Hin. destruct Hh as [[-> _]|[_ [r ->]]]; [done|].
    by destruct Hin as [|[]].
  - intros Hne. by destruct Hh as [?|[? _]].
Qed.

Lemma zero_dbLimit_hangs_witness :
  exists s, replay envOk cfgNoJob "db1" ["appdb"] [] = Some s /\ m_exit s = None.
Proof.
  eexists. split; [reflexivity|].
  refine (proj2 (proj2 (zero_dbLimit_hangs envOk cfgNoJob "db1" ["appdb"] [] _
                          _ _ (replay_exec envOk cfgNoJob "db1" ["appdb"] [] _
                                 eq_refl)) _));
    [reflexivity | reflexivity | discriminate].
Defined.

(** With [-tableLimit=0] no table task is ever started, so only a run
    whose databases all have no table, or none that can be listed, ever
    reports. *)
Theorem zero_tableLimit_starts_no_task env cfg hostname databases h s :
  0 < intSize cfg -> tableLimit cfg = 0 ->
  exec env cfg hostname databases h s ->
  (forall i, started i h = 0%nat)
  /\ (forall r database,
        m_exit s = Some r -> In database databases ->
        snd (tablesOf env cfg database) = None ->
        fst (tablesOf env cfg database) = []).
Proof.
  intros Hb Hlim Hexec.
  assert (forall i, started i h = 0%nat) as Hstarted.
  { induction Hexec as [g Hp Hg|h s ev s' Hexec IH Hstep]; [done|].
    destruct (exec_inv _ _ _ _ _ _ Hexec) as (_ & _ & _ & _ & Hjobs).
    intros i0. destruct Hstep; try (by simpl).
    destruct (Hjobs _ _ H) as (_ & Hg & _).
    rewrite (acquire_zero _ _ _ _ Hg) in H1; [done|].
    rewrite Hlim. by apply limitOf_zero. }
  split; [done|].
  intros r database Hex [i Hdb]%list_elem_of_In%list_elem_of_lookup_1 Hok.
  destruct (exec_hist _ _ _ _ _ _ Hexec) as (_ & _ & _ & Hd & He).
  destruct (He _ Hex) as (_ & Hnext & Hempty).
  apply nil_length_inv. rewrite <- (Hd i database); auto.
  - rewrite Hnext. by eapply lookup_lt_Some.
  - by rewrite Hempty, lookup_empty.
Qed.

Lemma zero_tableLimit_starts_no_task_witness :
  exists s,
    replay envOk cfgNoTask "db1" ["appdb"] historyListed = Some s
    /\ started 0 historyListed = 0%nat.
Proof.
  eexists. split; [vm_compute; reflexivity|].
  refine (proj1 (zero_tableLimit_starts_no_task envOk cfgNoTask "db1" ["appdb"]
                   historyListed _ _ _
                   (replay_exec envOk cfgNoTask "db1" ["appdb"] historyListed _
                      eq_refl)) 0%nat);
    reflexivity.
Defined.

Lemma exec_not_stuck env cfg hostname databases h s :
  0 < intSize cfg ->
  0 < dbLimit cfg < 2 ^ intSize cfg ->
  0 < tableLimit cfg < 2 ^ intSize cfg ->
  exec env cfg hostname databases h s ->
  m_exit s = None ->
  exists ev s', step env cfg hostname databases s ev s'.
Proof.
  intros Hb Hdb Htb Hexec Hex.
  destruct (exec_inv _ _ _ _ _ _ Hexec) as (Hg & Hsz & Hnext & Hfresh & Hjobs).
  destruct (size (m_jobs s)) as [|n] eqn:Hsize.
  - (* no job is running: main goes on *)
    destruct (Nat.lt_ge_cases (m_next s) (length databases)) as [Hlt|Hge].
    + apply lookup_lt_is_Some_2 in Hlt as [database Hdbi].
      destruct (limitOf_positive _ _ Hb Hdb) as [Hl|(cap & Hl & Hcap)].
      * destruct (acquire_free _ _ _ _ 0%nat Hg) as [g' Hacq]; [by left|].
        eexists _, _. by eapply step_db_go.
      * destruct (acquire_free _ _ _ _ cap Hg) as [g' Hacq]; [by right|].
        eexists _, _. by eapply step_db_go.
    + destruct Hg as (_ & Hwg & _). eexists _, _. eapply step_main_wait; eauto.
      * lia.
      * unfold Wait. by rewrite Hwg.
  - (* a job is running *)
    destruct (map_size_ne_0_lookup_1 (m_jobs s)) as [i [j Hi]]; [lia|].
    destruct j as [database|database tables k g tasks].
    + destruct (snd (tablesOf env cfg database)) as [e|] eqn:Herr.
      * eexists _, _. by eapply step_tables_err.
      * destruct (SetLimit_newGroup (toInt (intSize cfg) (tableLimit cfg))) as [g Hset].
        eexists _, _. by eapply step_tables_ok.
    + destruct (Hjobs _ _ Hi) as (_ & Hg' & _ & Hk & _).
      destruct (size tasks) as [|m] eqn:Htasks.
      * destruct (Nat.lt_ge_cases k (length tables)) as [Hlt|Hge].
        -- apply lookup_lt_is_Some_2 in Hlt as [table Htab].
           destruct (limitOf_positive _ _ Hb Htb) as [Hl|(cap & Hl & Hcap)].
           ++ destruct (acquire_free _ _ _ _ 0%nat Hg') as [g' Hacq]; [by left|].
              eexists _, _. by eapply (step_table_go _ _ _ _ _ _ _ _ _ _ _ _ _ morning).
           ++ destruct (acquire_free _ _ _ _ cap Hg') as [g' Hacq]; [by right|].
              eexists _, _. by eapply (step_table_go _ _ _ _ _ _ _ _ _ _ _ _ _ morning).
        -- destruct Hg' as (_ & Hwg & _). eexists _, _.
           eapply step_job_wait; eauto; [lia|]. unfold Wait. by rewrite Hwg.
      * destruct (map_size_ne_0_lookup_1 tasks) as [j [task Hj]]; [lia|].
        eexists _, _. by eapply step_table_done.
Qed.

(** The limit on jobs is reached and then holds: when there are at least
    [dbLimit] databases and the flag fits an [int], some run gets
    [dbLimit] jobs going at once, and in that state [dbGroup.Go] blocks. *)
Theorem dbLimit_is_reached_and_blocks env cfg hostname databases :
  0 < intSize cfg ->
  0 <= dbLimit cfg <= maxInt (intSize cfg) ->
  dbLimit cfg <= Z.of_nat (length databases) ->
  prelude env cfg = inr (hostname, databases) ->
  exists h s,
    exec env cfg hostname databases h s
    /\ Z.of_nat (size (m_jobs s)) = dbLimit cfg
    /\ forall i database s',
         ~ step env cfg hostname databases s (EvJobStart i database) s'.
Proof.
  intros Hb Hlim Hlen Hpre.
  assert (limitOf (intSize cfg) (dbLimit cfg) = Some (Z.to_nat (dbLimit cfg))) as Hl.
  { unfold limitOf, toInt, maxInt in *.
    destruct (Z.ltb_spec (dbLimit cfg) (2 ^ (intSize cfg - 1))); [|lia].
    destruct (Z.ltb_spec (dbLimit cfg) 0); [lia|done]. }
  assert (forall n, (n <= Z.to_nat (dbLimit cfg))%nat ->
            exists h s, exec env cfg hostname databases h s
                        /\ m_next s = n /\ size (m_jobs s) = n /\ m_exit s = None)
    as Hreach.
  { induction n as [|n IH]; intros Hn.
    - destruct (SetLimit_newGroup (toInt (intSize cfg) (dbLimit cfg))) as [g Hg].
      eexists [], _. split; [by apply exec_init|]. simpl.
      by rewrite map_size_empty.
    - destruct IH as (h & s & Hexec & Hnext & Hsize & Hex); [lia|].
      destruct (exec_inv _ _ _ _ _ _ Hexec) as (Hg & _ & _ & Hfresh & _).
      destruct (acquire_free _ _ _ _ (Z.to_nat (dbLimit cfg)) Hg) as [g' Hacq].
      { right. split; [done|]. lia. }
      destruct (lookup_lt_is_Some_2 databases (m_next s)) as [database Hdb]; [lia|].
      eexists _, _. split; [eapply exec_step; [exact Hexec|by eapply step_db_go]|].
      simpl. rewrite map_size_insert_None by (apply Hfresh; lia).
      split; [lia|]. split; [lia|done]. }
  destruct (Hreach (Z.to_nat (dbLimit cfg))) as (h & s & Hexec & Hnext & Hsize & Hex);
    [lia|].
  exists h, s. split; [done|]. split; [lia|].
  intros i database s' Hstep.
  destruct (exec_inv _ _ _ _ _ _ Hexec) as ((Hsem & _ & Htok) & _).
  inversion Hstep as [s0 database0 g Hex0 Hdb Hacq| | | | | |]; subst.
  unfold acquire in Hacq. rewrite Hsem, Hl in *. destruct Htok as [Htok _].
  rewrite Htok, Hsize, Nat.ltb_irrefl in Hacq. discriminate.
Qed.

Lemma dbLimit_is_reached_and_blocks_witness :
  exists h s,
    exec envTwo (mkConfig "backup" "secret" "localhost" "3306" "dumps" 1 1
                   defaultSkipDBs 64) "db1" ["emptydb"; "gonedb"] h s
    /\ Z.of_nat (size (m_jobs s)) = 1.
Proof.
  destruct (dbLimit_is_reached_and_blocks envTwo
              (mkConfig "backup" "secret" "localhost" "3306" "dumps" 1 1
                 defaultSkipDBs 64) "db1" ["emptydb"; "gonedb"])
    as (h & s & Hexec & Hsize & _);
    [reflexivity | split; discriminate | discriminate | reflexivity |].
  by exists h, s.
Defined.

(** ** The group and the prelude of [main] *)


(** [main] starts its loop exactly when the three required flags are not
    empty and the host name, the database listing and the storage client
    are all obtained without error; otherwise it stops before any job can
    start. *)
Theorem prelude_succeeds_iff env cfg :
  (forall hostname databases,
     prelude env cfg = inr (hostname, databases) <->
     dbUser cfg <> "" /\ dbPass cfg <> "" /\ bucketName cfg <> ""
     /\ osHostname env = (hostname, None)
     /\ getDatabases env (dbUser cfg) (dbPass cfg) (dbHost cfg) (dbPort cfg)
          (skipDBs cfg) = (databases, None)
     /\ newClientErr env = None)
  /\ (forall fatal hostname databases h s,
        prelude env cfg = inl fatal -> ~ exec env cfg hostname databases h s).
Proof.
  split.
  - intros hostname databases. unfold prelude.
    destruct (String.eqb_spec (dbUser cfg) ""); simpl; [by split; [|intros []]|].
    destruct (String.eqb_spec (dbPass cfg) ""); simpl; [by split; [|intros (_ & ? & _)]|].
    destruct (String.eqb_spec (bucketName cfg) ""); simpl;
      [by split; [|intros (_ & _ & ? & _)]|].
    destruct (osHostname env) as [hn [e|]];
      [split; [done|by intros (_ & _ & _ & ? & _)]|].
    destruct (getDatabases _ _ _ _ _ _) as [dbs [e|]];
      [split; [done|by intros (_ & _ & _ & _ & ? & _)]|].
    destruct (newClientErr env);
      [split; [done|by intros (_ & _ & _ & _ & _ & ?)]|].
    split; [by intros [= -> ->]|]. by intros (_ & _ & _ & [= ->] & [= ->] & _).
  - intros fatal hostname databases h s Hp Hexec.
    apply exec_prelude in Hexec. congruence.
Qed.

(** ** Every run is finite *)

Lemma sumTo_ext f g n :
  (forall i, (i < n)%nat -> f i = g i) -> sumTo f n = sumTo g n.
Proof.
  induction n as [|n IH]; intros H; [done|]. simpl.
  rewrite IH by (intros; apply H; lia). by rewrite H by lia.
Qed.

Lemma sumTo_change f g n i0 :
  (i0 < n)%nat -> (forall i, (i < n)%nat -> i <> i0 -> f i = g i) ->
  (sumTo g n + f i0 = sumTo f n + g i0)%nat.
Proof.
  induction n as [|n IH]; intros Hi0 H; [lia|]. simpl.
  destruct (decide (i0 = n)) as [->|Hne].
  - rewrite (sumTo_ext f g n) by (intros; apply H; lia). lia.
  - rewrite <- (H n) by lia. specialize (IH ltac:(lia) ltac:(intros; apply H; lia)).
    lia.
Qed.

Lemma sumTo_lookup (f : string -> nat) (l : list string) :
  sumTo (fun i => from_option f 0%nat (l !! i)) (length l) = list_sum (List.map f l).
Proof.
  induction l as [|x l IH] using rev_ind; [done|].
  rewrite length_app, Nat.add_1_r, List.map_app, list_sum_app. simpl.
  rewrite (sumTo_ext _ (fun i => from_option f 0%nat (l !! i))).
  - rewrite IH. rewrite lookup_app_r, Nat.sub_diag by lia. simpl. lia.
  - intros i Hi. by rewrite lookup_app_l.
Qed.

Section RunLength.
Variable env : Env.
Variable cfg : Config.
Variable hostname : string.
Variable databases : list string.

#[local] Abbreviation step := (step env cfg hostname databases).
#[local] Abbreviation exec := (exec env cfg hostname databases).
#[local] Abbreviation stateInv := (stateInv env cfg databases).
#[local] Abbreviation indexLeft := (indexLeft env cfg databases).
#[local] Abbreviation eventsLeft := (eventsLeft env cfg databases).

(** A step of the job [i0] that lowers what that job has left lowers the
    whole. *)
Lemma eventsLeft_job s s' i0 :
  (i0 < length databases)%nat ->
  m_exit s' = m_exit s ->
  (forall i, i <> i0 -> indexLeft s' i = indexLeft s i) ->
  (indexLeft s' i0 < indexLeft s i0)%nat ->
  (eventsLeft s' < eventsLeft s)%nat.
Proof.
  intros Hi0 Hex Hother Hlt. unfold eventsLeft. rewrite Hex.
  pose proof (sumTo_change (indexLeft s) (indexLeft s') (length databases) i0 Hi0)
    as Hsum.
  specialize (Hsum ltac:(intros; symmetry; by apply Hother)). lia.
Qed.

Lemma step_eventsLeft s ev s' :
  stateInv s -> step s ev s' -> (eventsLeft s' < eventsLeft s)%nat.
Proof.
  intros (Hg & Hsz & Hnext & Hfresh & Hjobs) Hstep.
  assert (forall i j, m_jobs s !! i = Some j -> (i < length databases)%nat) as Hin.
  { intros i j Hi. destruct (Nat.lt_ge_cases i (m_next s)); [lia|].
    rewrite Hfresh in Hi by done. discriminate. }
  destruct Hstep as [s database g Hex Hdb Hacq
                    |s i database e r Hi Herr Hr
                    |s i database g Hi Hok Hset
                    |s i database tables k g tasks table g' now Hi Htab Hacq
                    |s i database tables k g tasks j task r Hi Hj Hr
                    |s i database tables k g tasks r Hi Hk Hwait
                    |s r Hex Hnext' Hwait].
  - apply (eventsLeft_job _ _ (m_next s)); [by eapply lookup_lt_Some|done| |].
    + intros i Hne. unfold indexLeft. cbn [m_jobs m_next].
      rewrite lookup_insert_ne by done.
      destruct (m_jobs s !! i); [done|].
      destruct (Nat.ltb_spec i (S (m_next s))), (Nat.ltb_spec i (m_next s));
        (done || lia).
    + unfold indexLeft. cbn [m_jobs m_next].
      rewrite lookup_insert_eq, Hfresh, Nat.ltb_irrefl, Hdb by done.
      unfold jobCost. simpl. lia.
  - apply (eventsLeft_job _ _ i); [by eapply Hin|done| |].
    + intros i' Hne. unfold indexLeft. cbn [endJob m_jobs m_next].
      by rewrite lookup_delete_ne.
    + unfold indexLeft. cbn [endJob m_jobs m_next].
      rewrite lookup_delete_eq, Hi. simpl.
      destruct (Nat.ltb_spec i (m_next s)) as [|Hge]; [lia|].
      rewrite Hfresh in Hi by done. discriminate.
  - apply (eventsLeft_job _ _ i); [by eapply Hin|done| |].
    + intros i' Hne. unfold indexLeft. cbn [setJob m_jobs m_next].
      by rewrite lookup_insert_ne.
    + unfold indexLeft. cbn [setJob m_jobs m_next].
      rewrite lookup_insert_eq, Hi. simpl. rewrite map_size_empty. lia.
  - apply (eventsLeft_job _ _ i); [by eapply Hin|done| |].
    + intros i' Hne. unfold indexLeft. cbn [setJob m_jobs m_next].
      by rewrite lookup_insert_ne.
    + unfold indexLeft. cbn [setJob m_jobs m_next].
      rewrite lookup_insert_eq, Hi. simpl.
      destruct (Hjobs _ _ Hi) as (_ & _ & _ & _ & Hfr).
      rewrite map_size_insert_None by (apply Hfr; lia).
      apply lookup_lt_Some in Htab. lia.
  - apply (eventsLeft_job _ _ i); [by eapply Hin|done| |].
    + intros i' Hne. unfold indexLeft. cbn [setJob m_jobs m_next].
      by rewrite lookup_insert_ne.
    + unfold indexLeft. cbn [setJob m_jobs m_next].
      rewrite lookup_insert_eq, Hi. simpl.
      rewrite map_size_delete_Some by eauto.
      pose proof (size_pos _ _ _ Hj). lia.
  - apply (eventsLeft_job _ _ i); [by eapply Hin|done| |].
    + intros i' Hne. unfold indexLeft. cbn [endJob m_jobs m_next].
      by rewrite lookup_delete_ne.
    + unfold indexLeft. cbn [endJob m_jobs m_next].
      rewrite lookup_delete_eq, Hi. simpl.
      destruct (Nat.ltb_spec i (m_next s)) as [|Hge]; [lia|].
      rewrite Hfresh in Hi by done. discriminate.
  - unfold eventsLeft. cbn [m_exit]. rewrite Hex.
    rewrite (sumTo_ext _ (indexLeft s)) by done. lia.
Qed.

Lemma exec_eventsLeft h s :
  exec h s ->
  (length h + eventsLeft s
   <= 1 + list_sum (List.map (jobCost env cfg) databases))%nat.
Proof.
  induction 1 as [g Hp Hg|h s ev s' Hexec IH Hstep].
  - unfold eventsLeft. cbn [m_exit length].
    rewrite (sumTo_ext _ (fun i => from_option (jobCost env cfg) 0%nat (databases !! i))).
    + by rewrite sumTo_lookup.
    + intros i _. unfold indexLeft. cbn [m_jobs m_next]. by rewrite lookup_empty.
  - pose proof (step_eventsLeft _ _ _ (exec_inv _ _ _ _ _ _ Hexec) Hstep).
    simpl. lia.
Qed.

End RunLength.

(** No run goes on for ever: whatever the order in which the goroutines
    are scheduled, a run has at most one event for the exit and, for each
    database, three events and two more for each of its tables. *)
Theorem run_is_finite env cfg hostname databases h s :
  exec env cfg hostname databases h s ->
  (length h <= 1 + list_sum (List.map (jobCost env cfg) databases))%nat.
Proof.
  intros Hexec. pose proof (exec_eventsLeft _ _ _ _ _ _ Hexec). lia.
Qed.

Lemma run_is_finite_witness :
  (length sampleHistory
   <= 1 + list_sum (List.map (jobCost envDumpFails sampleCfg) ["appdb"]))%nat.
Proof.
  exact (run_is_finite envDumpFails sampleCfg "db1" ["appdb"] sampleHistory _
           (sample_exec 0 _ eq_refl)).
Defined.

(** With both limits positive every run comes to its end.  A run that
    has not reported is never stuck, some goroutine can always take its
    next step; and from every state a run reaches, it can go on to the
    state in which [main] reports. *)
Theorem run_always_finishes env cfg hostname databases h s :
  0 < intSize cfg ->
  0 < dbLimit cfg < 2 ^ intSize cfg ->
  0 < tableLimit cfg < 2 ^ intSize cfg ->
  exec env cfg hostname databases h s ->
  (m_exit s = None -> exists ev s', step env cfg hostname databases s ev s')
  /\ exists h' s' r,
       exec env cfg hostname databases (h' ++ h) s' /\ m_exit s' = Some r.
Proof.
  intros Hb Hdb Htb Hexec. split; [by eapply exec_not_stuck|].
  remember (eventsLeft env cfg databases s) as n eqn:Hn.
  revert h s Hexec Hn. induction n as [n IH] using lt_wf_ind. intros h s Hexec Hn.
  destruct (m_exit s) as [r|] eqn:Hex.
  - by exists [], s, r.
  - destruct (exec_not_stuck _ _ _ _ _ _ Hb Hdb Htb Hexec Hex) as (ev & s1 & Hstep).
    pose proof (step_eventsLeft _ _ _ _ _ _ _ (exec_inv _ _ _ _ _ _ Hexec) Hstep)
      as Hlt.
    destruct (IH (eventsLeft env cfg databases s1) ltac:(lia) (ev :: h) s1)
      as (h' & s' & r & Hexec' & Hex'); [by eapply exec_step|done|].
    exists (h' ++ [ev]), s', r. by rewrite <- app_assoc.
Qed.

Lemma run_always_finishes_witness :
  exists h' s' r,
    exec envDumpFails sampleCfg "db1" ["appdb"] (h' ++ drop 4 sampleHistory) s'
    /\ m_exit s' = Some r.
Proof.
  refine (proj2 (run_always_finishes envDumpFails sampleCfg "db1" ["appdb"]
                   (drop 4 sampleHistory) _ _ _ _ (sample_exec 4 _ eq_refl)));
    first [reflexivity | split; reflexivity].
Defined.

(** ** The timestamp identifies the hour *)

Lemma fieldOk_range width bound x :
  forallb (fun n => fieldOk width (Z.of_nat n)) (seq 0 (Z.to_nat bound)) = true ->
  0 <= x < bound -> fieldOk width x = true.
Proof.
  intros Hall Hx. rewrite forallb_forall in Hall.
  specialize (Hall (Z.to_nat x)). rewrite Z2Nat.id in Hall by lia.
  apply Hall, in_seq. lia.
Qed.

Lemma fieldOk_year x : 0 <= x <= 9999 -> fieldOk 4 x = true.
Proof.
  intros Hx. apply (fieldOk_range 4 10000); [by vm_compute|lia].
Qed.

Lemma fieldOk_two x : 0 <= x <= 99 -> fieldOk 2 x = true.
Proof.
  intros Hx. apply (fieldOk_range 2 100); [by vm_compute|lia].
Qed.

Lemma fieldOk_spec width x :
  fieldOk width x = true ->
  String.length (appendInt x width) = width /\ Atoi (appendInt x width) = x.
Proof.
  unfold fieldOk. intros [H1 H2]%andb_prop.
  split; [by apply Nat.eqb_eq|by apply Z.eqb_eq].
Qed.

Lemma append_inj_length a a' b b' :
  String.length a = String.length a' -> a +:+ b = a' +:+ b' -> a = a' /\ b = b'.
Proof.
  revert a'. induction a as [|x a IH]; intros [|x' a'] Hlen H; try done.
  rewrite !append_cons in H. injection H as -> H. injection Hlen as Hlen.
  destruct (IH a' Hlen H) as [-> ->]. done.
Qed.

(** For readings of the clock in the range of [time.Now()], the
    timestamp has thirteen bytes and identifies the hour: two readings
    format the same timestamp exactly when they fall in the same hour, and
    then, and only then, one table gets the same object key from both. *)
Theorem Format_identifies_the_hour t1 t2 :
  civil t1 -> civil t2 ->
  String.length (Format t1) = 13%nat
  /\ (Format t1 = Format t2 <-> sameHour t1 t2)
  /\ (forall hostname database table,
        objectKey hostname t1 database table = objectKey hostname t2 database table
        <-> sameHour t1 t2).
Proof.
  intros (Hy1 & Hm1 & Hd1 & Hh1) (Hy2 & Hm2 & Hd2 & Hh2).
  destruct (fieldOk_spec _ _ (fieldOk_year _ Hy1)) as [Ly1 Ay1].
  destruct (fieldOk_spec _ _ (fieldOk_year _ Hy2)) as [Ly2 Ay2].
  destruct (fieldOk_spec 2 (month t1)) as [Lm1 Am1]; [apply fieldOk_two; lia|].
  destruct (fieldOk_spec 2 (month t2)) as [Lm2 Am2]; [apply fieldOk_two; lia|].
  destruct (fieldOk_spec 2 (day t1)) as [Ld1 Ad1]; [apply fieldOk_two; lia|].
  destruct (fieldOk_spec 2 (day t2)) as [Ld2 Ad2]; [apply fieldOk_two; lia|].
  destruct (fieldOk_spec 2 (hour t1)) as [Lh1 Ah1]; [apply fieldOk_two; lia|].
  destruct (fieldOk_spec 2 (hour t2)) as [Lh2 Ah2]; [apply fieldOk_two; lia|].
  assert (forall t, String.length (appendInt (year t) 4) = 4%nat ->
                    String.length (appendInt (month t) 2) = 2%nat ->
                    String.length (appendInt (day t) 2) = 2%nat ->
                    String.length (appendInt (hour t) 2) = 2%nat ->
                    String.length (Format t) = 13%nat) as Hlen.
  { intros t L1 L2 L3 L4. unfold Format. rewrite !length_append, L1, L2, L3, L4.
    reflexivity. }
  assert (Format t1 = Format t2 <-> sameHour t1 t2) as Hiff.
  { split; [|apply Format_sameHour]. unfold Format. intros H.
    apply append_inj_length in H as [Hy H]; [|congruence].
    apply (inj (String.append "-")) in H.
    apply append_inj_length in H as [Hm H]; [|congruence].
    apply (inj (String.append "-")) in H.
    apply append_inj_length in H as [Hd H]; [|congruence].
    apply (inj (String.append "-")) in H.
    repeat split; congruence. }
  split; [by apply Hlen|]. split; [done|].
  intros hostname database table. rewrite <- Hiff. split.
  - rewrite !objectKey_unfold. intros H.
    apply (inj (String.append hostname)) in H.
    apply (inj (String.append "/")) in H.
    apply append_inj_length in H as [H _]; [done|].
    rewrite !Hlen; done.
  - unfold objectKey, backupPath. by intros ->.
Qed.

Lemma Format_identifies_the_hour_witness :
  Format morning = Format later <-> sameHour morning later.
Proof.
  apply (Format_identifies_the_hour morning later); vm_compute; intuition discriminate.
Defined.

(** ** The earlier revision of the upload *)

(** The earlier [uploadToGCS] reports success as soon as the copy and the
    flush succeed: the closes of the compressor and of the remote writer
    are deferred and their errors dropped, so their failure does not
    change the result, and the object is not checked.  Once the client
    exists, the three deferred closes are the last calls on every path,
    the compressor first and the client last. *)
Theorem legacy_upload_ignores_close_errors env path table :
  let object := objectName path table in
  let sink := gcsObject env object in
  let res := fst (Legacy.uploadToGCS env path table) in
  let calls := snd (Legacy.uploadToGCS env path table) in
  (res = None <->
   newClientErr env = None /\ copy_err sink = None /\ flush_err sink = None)
  /\ (newClientErr env = None ->
      exists before, calls = before ++ Legacy.deferred object)
  /\ (newClientErr env <> None -> calls = [Legacy.CNewClient])
  /\ (forall c, In c calls ->
        c <> Legacy.CNewClient /\ c <> Legacy.CClientClose ->
        In c [Legacy.CNewWriter object; Legacy.CCopy object; Legacy.CFlush object;
              Legacy.CGzipClose object; Legacy.CWriterClose object]).
Proof.
  intros object sink. unfold Legacy.uploadToGCS. fold object. fold sink.
  destruct (newClientErr env); [|destruct (copy_err sink); [|destruct (flush_err sink)]];
    cbn [fst snd]; (split; [intuition congruence|]);
    (split; [first [done | intros _; by eexists]|]);
    (split; [intuition congruence|]);
    intros c Hc [? ?]; simpl in Hc |- *; intuition congruence.
Qed.

Lemma legacy_upload_ignores_close_errors_witness :
  fst (Legacy.uploadToGCS
         (mkEnv sampleOutput (fun _ _ => mkProcess None None (Exited 0))
            (fun _ => mkSink None None (Some (errorString "gzip: closed"))
                        (Some (errorString "googleapi: Error 503")) None)
            ("db1", None) None)
         "db1/appdb/2024-03-07-09" "users") = None.
Proof.
  apply (proj1 (legacy_upload_ignores_close_errors _ "db1/appdb/2024-03-07-09" "users")).
  repeat split.
Defined.

(** ** Every table is dumped once *)

Lemma startedAt_quiet i k ev h :
  quietFor i ev -> startedAt i k (ev :: h) = startedAt i k h.
Proof.
  destruct ev; simpl; try done. intros Hne. rewrite decide_False; [done|].
  by intros [? _].
Qed.

Lemma startedAt_le_started i k h : (startedAt i k h <= started i h)%nat.
Proof.
  induction h as [|[] h IH]; simpl; try lia. repeat case_decide; lia.
Qed.

Lemma onceBelow_quiet bound i ev h :
  quietFor i ev -> onceBelow bound i h -> onceBelow bound i (ev :: h).
Proof. intros Hq H k. rewrite startedAt_quiet by done. apply H. Qed.

Lemma startedAt_In i k h :
  (0 < startedAt i k h)%nat -> exists table now, In (EvTaskStart i k table now) h.
Proof.
  induction h as [|ev h IH]; [simpl; lia|].
  destruct ev as [| |i' k' table now| | |]; cbn [startedAt]; intros H;
    try (destruct (IH H) as (t & n & Hin); exists t, n; by right).
  case_decide as Heq.
  - destruct Heq as [-> ->]. exists table, now. by left.
  - destruct (IH H) as (t & n & Hin). exists t, n. by right.
Qed.

Section RunTables.
Variable env : Env.
Variable cfg : Config.
Variable hostname : string.
Variable databases : list string.

#[local] Abbreviation step := (step env cfg hostname databases).
#[local] Abbreviation exec := (exec env cfg hostname databases).
#[local] Abbreviation tablesOf := (tablesOf env cfg).
#[local] Abbreviation histInv := (histInv env cfg databases).
#[local] Abbreviation histInv3 := (histInv3 env cfg databases).
#[local] Abbreviation stateInv := (stateInv env cfg databases).

Lemma hist3_step h s ev s' :
  stateInv s -> histInv h s -> histInv3 h s -> step s ev s' ->
  histInv3 (ev :: h) s'.
Proof.
  intros Hst Hh (H1 & H2 & H3) Hstep.
  pose proof Hh as (_ & Hb & Hc & _ & _).
  pose proof Hst as (_ & _ & _ & Hfresh & Hjobs).
  assert (forall i j, m_jobs s !! i = Some j -> (i < m_next s)%nat) as Hlt.
  { intros i j Hi. destruct (Nat.lt_ge_cases i (m_next s)); [done|].
    rewrite Hfresh in Hi by done. discriminate. }
  assert (forall i k table now,
            (forall t n, ev <> EvTaskStart i k t n) ->
            In (EvTaskStart i k table now) (ev :: h) ->
            exists database, databases !! i = Some database
                             /\ fst (tablesOf database) !! k = Some table) as H3'.
  { intros i k table now Hne [Heq|Hin]; [by destruct (Hne table now)|by eapply H3]. }
  destruct Hstep as [s database g Hex Hdb Hacq
                    |s i database e r Hi Herr Hr
                    |s i database g Hi Hok Hset
                    |s i database tables k g tasks table g' now Hi Htab Hacq
                    |s i database tables k g tasks j task r Hi Hj Hr
                    |s i database tables k g tasks r Hi Hk Hwait
                    |s r Hex Hnext Hwait].
  - (* dbGroup.Go *)
    split; [|split; [|by intros; eapply H3']]; cbn [m_jobs m_next].
    + intros i db tables k g' tasks. rewrite lookup_insert.
      case_decide; [done|]. intros Hi. apply onceBelow_quiet; [done|]. eauto.
    + intros i db Hi. rewrite lookup_insert. case_decide as Heq; [done|].
      intros Hnone Hdbi Hok. apply onceBelow_quiet; [done|].
      apply H2; auto. lia.
  - (* getTables fails *)
    split; [|split; [|by intros; eapply H3']]; cbn [endJob m_jobs m_next].
    + intros i' db tables k g' tasks. rewrite lookup_delete.
      case_decide; [done|]. intros Hi'. apply onceBelow_quiet; [done|]. eauto.
    + intros i' db Hi'. rewrite lookup_delete. case_decide as Heq.
      * subst i'. intros _ Hdbi Hok. destruct (Hc _ _ Hi) as (Hdbi' & _). congruence.
      * intros Hnone Hdbi Hok. apply onceBelow_quiet; [done|]. by apply H2.
  - (* getTables succeeds *)
    split; [|split; [|by intros; eapply H3']]; cbn [setJob m_jobs m_next].
    + intros i' db tables k g' tasks. rewrite lookup_insert. case_decide as Heq.
      * subst i'. intros [= <- <- <- <- <-]. apply onceBelow_quiet; [done|].
        intros k. destruct (Hc _ _ Hi) as (_ & Hs0 & _). simpl.
        pose proof (startedAt_le_started i k h). lia.
      * intros Hi'. apply onceBelow_quiet; [done|]. eauto.
    + intros i' db Hi'. rewrite lookup_insert. case_decide as Heq; [done|].
      intros Hnone Hdbi Hok'. apply onceBelow_quiet; [done|]. by apply H2.
  - (* tableGroup.Go *)
    split; [|split]; cbn [setJob m_jobs m_next].
    + intros i' db tables' k' g'' tasks'. rewrite lookup_insert. case_decide as Heq.
      * subst i'. intros [= <- <- <- <- <-]. intros k0.
        pose proof (H1 _ _ _ _ _ _ Hi k0) as Hk0. cbn [startedAt].
        case_decide as Hd.
        -- destruct Hd as [_ <-]. rewrite Hk0.
           destruct (Nat.ltb_spec k k), (Nat.ltb_spec k (S k)); lia.
        -- rewrite Hk0.
           destruct (Nat.ltb_spec k0 k), (Nat.ltb_spec k0 (S k)); lia.
      * intros Hi'. apply onceBelow_quiet; [by simpl|]. eauto.
    + intros i' db Hi'. rewrite lookup_insert. case_decide as Heq; [done|].
      intros Hnone Hdbi Hok. apply onceBelow_quiet; [by simpl|]. by apply H2.
    + intros i' k' table' now' [Heq|Hin]; [|by eapply H3].
      injection Heq as <- <- <- <-.
      destruct (Hc _ _ Hi) as (Hdbi & _).
      destruct (Hjobs _ _ Hi) as (-> & _). eauto.
  - (* a table task returns *)
    split; [|split; [|by intros; eapply H3']]; cbn [setJob m_jobs m_next].
    + intros i' db tables' k' g'' tasks'. rewrite lookup_insert. case_decide as Heq.
      * subst i'. intros [= <- <- <- <- <-]. intros k0. cbn [startedAt].
        by apply (H1 _ _ _ _ _ _ Hi).
      * intros Hi'. intros k0. cbn [startedAt]. by eapply H1.
    + intros i' db Hi'. rewrite lookup_insert. case_decide as Heq; [done|].
      intros Hnone Hdbi Hok k0. cbn [startedAt]. by apply H2.
  - (* tableGroup.Wait *)
    split; [|split; [|by intros; eapply H3']]; cbn [endJob m_jobs m_next].
    + intros i' db tables' k' g' tasks'. rewrite lookup_delete.
      case_decide; [done|]. intros Hi'. apply onceBelow_quiet; [done|]. eauto.
    + intros i' db Hi'. rewrite lookup_delete. case_decide as Heq.
      * subst i'. intros _ Hdbi Hok. destruct (Hc _ _ Hi) as (Hdbi' & _).
        assert (db = database) as -> by congruence.
        destruct (Hjobs _ _ Hi) as (<- & _). rewrite <- Hk.
        apply onceBelow_quiet; [done|]. by eapply H1.
      * intros Hnone Hdbi Hok. apply onceBelow_quiet; [done|]. by apply H2.
  - (* dbGroup.Wait *)
    split; [|split; [|by intros; eapply H3']]; cbn [m_jobs m_next].
    + intros i db tables k g tasks Hi. apply onceBelow_quiet; [done|]. eauto.
    + intros i db Hi Hnone Hdbi Hok. apply onceBelow_quiet; [done|]. by apply H2.
Qed.

Lemma exec_hist3 h s : exec h s -> histInv3 h s.
Proof.
  induction 1 as [g Hp Hg|h s ev s' Hexec IH Hstep].
  - split; [|split]; simpl.
    + intros i database tables k g' tasks. by rewrite lookup_empty.
    + intros; lia.
    + by intros.
  - eapply hist3_step; eauto using exec_inv, exec_hist.
Qed.

End RunTables.

(** Every table is dumped, and once.  A table task is only ever started
    for a table of the listing of its database; and when the run reports,
    each table of each database whose tables could be listed has had its
    task started exactly once, failures of other tasks or jobs
    notwithstanding. *)
Theorem every_table_dumped_once env cfg hostname databases h s :
  exec env cfg hostname databases h s ->
  (forall i k table now,
     In (EvTaskStart i k table now) h ->
     exists database,
       databases !! i = Some database
       /\ fst (tablesOf env cfg database) !! k = Some table)
  /\ (forall r i database k table,
        m_exit s = Some r ->
        databases !! i = Some database ->
        snd (tablesOf env cfg database) = None ->
        fst (tablesOf env cfg database) !! k = Some table ->
        startedAt i k h = 1%nat
        /\ exists now, In (EvTaskStart i k table now) h).
Proof.
  intros Hexec.
  destruct (exec_hist3 _ _ _ _ _ _ Hexec) as (_ & H2 & H3).
  split; [exact H3|].
  intros r i database k table Hex Hdb Hok Htab.
  destruct (exec_hist _ _ _ _ _ _ Hexec) as (_ & _ & _ & _ & He).
  destruct (He _ Hex) as (_ & Hnext & Hempty).
  assert (startedAt i k h = 1%nat) as Hone.
  { rewrite (H2 i database); auto.
    - pose proof (lookup_lt_Some _ _ _ Htab).
      destruct (Nat.ltb_spec k (length (fst (tablesOf env cfg database)))); [done|lia].
    - rewrite Hnext. by eapply lookup_lt_Some.
    - by rewrite Hempty, lookup_empty. }
  split; [done|].
  destruct (startedAt_In i k h) as (table' & now & Hin); [lia|].
  destruct (H3 _ _ _ _ Hin) as (database' & Hdb' & Htab').
  assert (table' = table) as -> by congruence. eauto.
Qed.

Lemma every_table_dumped_once_witness :
  startedAt 0 1 sampleHistory = 1%nat
  /\ exists now, In (EvTaskStart 0 1 "users" now) sampleHistory.
Proof.
  exact (proj2 (every_table_dumped_once envDumpFails sampleCfg "db1" ["appdb"]
                  sampleHistory _ (sample_exec 0 _ eq_refl))
           (Some failedOrders) 0%nat "appdb" 1%nat "users"
           eq_refl eq_refl eq_refl eq_refl).
Defined.
